(** * Dashboard permission filters: a shallow embedding of
    [pkg/services/sqlstore/permissions/dashboard.go]

    The Go file compiles a user's grants into parameterised SQL text.  The
    embedding keeps the two things the Go code is careful about:

    - SQL text is an immutable Go [string] (here [string]),
    - bound parameters are Go slices of [interface{}]: a slice header that
      points into a backing array which [append] may write in place.  The
      backing arrays live in an explicit store, so that the reuse of the
      scratch slice [permSelectorArgs] between the two branches of
      [buildClauses] is visible in the model.

    Run-time panics (nil dereference, index out of range) are modelled by
    the failure of the store-passing monad. *)

From Stdlib Require Import ZArith Ascii DecimalString.
From stdpp Require Import gmap strings list.

(** ** Values held by [interface{}] *)

(** An [interface{}] value is a dynamic type together with a value of that
    type.  Only the dynamic types this file boxes are listed. *)
Inductive value : Type :=
  | VNil                          (* the zero value of interface{} *)
  | VString (s : string)          (* string *)
  | VInt (n : Z)                  (* int, the type of len(..) *)
  | VInt64 (n : Z)                (* int64 *)
  | VRoleType (r : string)        (* org.RoleType, a string type *)
  | VPermissionType (p : Z).      (* dashboards.PermissionType, an int type *)

(** ** Go slices over a store of backing arrays *)

Abbreviation loc := nat.

(** The store: backing array number [l] is the [l]-th element. *)
Abbreviation heap := (list (list value)).

(** A slice header.  [arr = None] is the nil slice.  Value slices of this
    file are only ever resliced as [s[:0]], so a header needs no offset. *)
Record slice := Slice { arr : option loc; len : nat; cap : nat }.

Definition nil_slice : slice := Slice None 0 0.

(** [s[:0]] *)
Definition reslice0 (s : slice) : slice := Slice (arr s) 0 (cap s).

(** Store-passing computations that may panic. *)
Definition M (A : Type) : Type := heap → option (A * heap).

Definition ret {A} (a : A) : M A := λ h, Some (a, h).
Definition bind {A B} (m : M A) (k : A → M B) : M B :=
  λ h, match m h with Some (a, h') => k a h' | None => None end.
Definition panic {A} : M A := λ _, None.

Notation "x <- m ;; k" := (bind m (λ x, k))
  (at level 100, m at next level, right associativity, only parsing).
Notation "m ;;; k" := (bind m (λ _, k))
  (at level 100, right associativity, only parsing).

Definition newarray (a : list value) : M loc := λ h, Some (length h, h ++ [a]).
Definition array_of (l : loc) : M (list value) :=
  λ h, match h !! l with Some a => Some (a, h) | None => None end.
Definition set_array (l : loc) (a : list value) : M unit :=
  λ h, Some (tt, <[l := a]> h).

(** Overwrite [a] from index [i] on with [ys]. *)
Definition splice (a : list value) (i : nat) (ys : list value) : list value :=
  take i a ++ ys ++ drop (i + length ys) a.

(** The elements of a slice, as [s...] or [range s] read them. *)
Definition elems (s : slice) : M (list value) :=
  match arr s with
  | None => ret []
  | Some l => a <- array_of l ;; ret (take (len s) a)
  end.

Section GoSlices.
(** The capacity the runtime picks when [append] has to reallocate, as a
    function of the old capacity and the needed length.  The Go
    specification only promises that the new array is large enough, so the
    policy is a parameter and [append] takes the maximum with the needed
    length. *)
Variable growslice : nat → nat → nat.

(** [make([]interface{}, n)] *)
Definition make (n : nat) : M slice :=
  l <- newarray (replicate n VNil) ;;
  ret (Slice (Some l) n n).

(** [[]interface{}{x1, ..., xn}] *)
Definition literal (xs : list value) : M slice :=
  l <- newarray xs ;;
  ret (Slice (Some l) (length xs) (length xs)).

(** [copy(dst, src)]: the first [min(len(dst), len(src))] elements. *)
Definition copy (dst src : slice) : M nat :=
  xs <- elems src ;;
  let n := Nat.min (len dst) (len src) in
  match arr dst with
  | None => ret n
  | Some l =>
      a <- array_of l ;;
      set_array l (splice a 0 (take n xs)) ;;;
      ret n
  end.

(** [append(s, ys...)]: in place when the capacity allows it, in a fresh
    array otherwise. *)
Definition append (s : slice) (ys : list value) : M slice :=
  let n := len s + length ys in
  if decide (n ≤ cap s) then
    match arr s with
    | None => ret s
    | Some l =>
        a <- array_of l ;;
        set_array l (splice a (len s) ys) ;;;
        ret (Slice (Some l) n (cap s))
    end
  else
    xs <- elems s ;;
    let c := Nat.max n (growslice (cap s) n) in
    l <- newarray (xs ++ ys ++ replicate (c - n) VNil) ;;
    ret (Slice (Some l) n c).

End GoSlices.

(** ** Reasoning about the store *)

(** [pts h s xs]: in store [h] the slice [s] is well formed and holds [xs]. *)
Definition pts (h : heap) (s : slice) (xs : list value) : Prop :=
  match arr s with
  | None => len s = 0 ∧ cap s = 0 ∧ xs = []
  | Some l => ∃ a, h !! l = Some a ∧ length a = cap s ∧ len s ≤ cap s
                   ∧ take (len s) a = xs
  end.

(** [owns h F]: the slices of [F] hold their contents in pairwise distinct
    backing arrays. *)
Definition owns (h : heap) (F : list (slice * list value)) : Prop :=
  Forall (λ p, pts h p.1 p.2) F ∧ NoDup (omap (λ p, arr p.1) F).

(** Total correctness: [m] does not panic from [h] and its result and final
    store satisfy [Q]. *)
Definition wp {A} (m : M A) (h : heap) (Q : A → heap → Prop) : Prop :=
  ∃ a h', m h = Some (a, h') ∧ Q a h'.

(** ** Strings *)

(** The number of positional [?] placeholders of a text. *)
Fixpoint count_q (s : string) : nat :=
  match s with
  | EmptyString => 0
  | String c r => (if Ascii.eqb c "?"%char then 1 else 0) + count_q r
  end.

(** [strings.Repeat(s, count)].  Both call sites pass [len(..) - 1] of a
    slice that is not empty there, so the count is never negative. *)
Fixpoint Repeat (s : string) (count : nat) : string :=
  match count with
  | 0 => ""
  | S n => s +:+ Repeat s n
  end.

(** The [%d] verb of [fmt.Sprintf] on a length. *)
Definition Sprintf_d (n : nat) : string := NilEmpty.string_of_uint (Nat.to_uint n).

(** ** Imported packages *)

(** [user.SignedInUser], with the fields this file reads.  A Go map is
    [None] when nil; reading a nil map or a missing key gives the zero
    value. *)
Record SignedInUser := {
  OrgID : Z;
  UserID : Z;
  Teams : list Z;
  Permissions : option (gmap Z (option (gmap string (list string))));
}.

Definition map_index `{Countable K} {V} (zero : V) (m : option (gmap K V)) (k : K) : V :=
  match m with
  | Some g => default zero (g !! k)
  | None => zero
  end.

(** [migrator.Dialect], an interface; only [BooleanStr] is called. *)
Record Dialect := { BooleanStr : bool → string }.

(** [featuremgmt.FeatureToggles], an interface; only [IsEnabled] is called. *)
Record FeatureToggles := { IsEnabled : string → bool }.

(** The names this file imports from other packages of the repository:
    constants, the wildcard type with its containment test, and the role
    resolver.  Their definitions are not part of this file, so they are the
    fields of an interface; [growslice] is the growth policy of the
    runtime's [append]. *)
Class Imports := {
  (* org *)
  RoleAdmin : string;
  RoleEditor : string;
  RoleViewer : string;
  (* dashboards *)
  PERMISSION_VIEW : Z;
  ActionFoldersRead : string;
  ActionDashboardsCreate : string;
  ActionDashboardsRead : string;
  ActionDashboardsWrite : string;
  ScopeDashboardsPrefix : string;
  ScopeFoldersPrefix : string;
  (* searchstore *)
  TypeFolder : string;
  TypeDashboard : string;
  TypeAlertFolder : string;
  (* featuremgmt *)
  FlagNestedFolders : string;
  (* accesscontrol *)
  ActionAlertingRuleRead : string;
  ActionAlertingRuleCreate : string;
  Wildcards : Type;
  WildcardsFromPrefix : string → Wildcards;
  Contains : Wildcards → string → bool;
  UserRolesFilter : Z → Z → list Z → list string → string * list value;
  GetOrgRoles : option SignedInUser → list string;
  (* runtime *)
  growslice : nat → nat → nat;
}.

(** ** The legacy role filter *)

Record DashboardPermissionFilter := {
  OrgRole : string;
  Dialect_ : Dialect;
  UserId : Z;
  OrgId : Z;
  PermissionLevel : Z;
}.

Section Legacy.
Context `{Imports}.

(** The text that [Where] assembles, lines 40-78: five raw string
    literals around [strings.Repeat(",?", len(okRoles)-1)] and [falseStr]. *)
Definition legacy_sql (okRoles : nat) (falseStr : string) : string :=
  "(
		dashboard.id IN (
			SELECT distinct DashboardId from (
				SELECT d.id AS DashboardId
					FROM dashboard AS d
					LEFT JOIN dashboard_acl AS da ON
						da.dashboard_id = d.id OR
						da.dashboard_id = d.folder_id
					WHERE
						d.org_id = ? AND
						da.permission >= ? AND
						(
							da.user_id = ? OR
							da.team_id IN (SELECT team_id from team_member AS tm WHERE tm.user_id = ?) OR
							da.role IN (?" +:+ Repeat ",?" (okRoles - 1) +:+ ")
						)
				UNION
				SELECT d.id AS DashboardId
					FROM dashboard AS d
					LEFT JOIN dashboard AS folder on folder.id = d.folder_id
					LEFT JOIN dashboard_acl AS da ON
						(
							-- include default permissions -->
							da.org_id = -1 AND (
							  (folder.id IS NOT NULL AND folder.has_acl = " +:+ falseStr +:+ ") OR
							  (folder.id IS NULL AND d.has_acl = " +:+ falseStr +:+ ")
							)
						)
					WHERE
						d.org_id = ? AND
						da.permission >= ? AND
						(
							da.user_id = ? OR
							da.role IN (?" +:+ Repeat ",?" (okRoles - 1) +:+ ")
						)
			) AS a
		)
	)
	".

(** [func (d DashboardPermissionFilter) Where() (string, []interface{})] *)
Definition DashboardPermissionFilter_Where (d : DashboardPermissionFilter)
  : M (string * slice) :=
  if decide (OrgRole d = RoleAdmin) then ret ("", nil_slice)
  else
    okRoles <- literal [VRoleType (OrgRole d)] ;;
    okRoles <- (if decide (OrgRole d = RoleEditor)
                then append growslice okRoles [VRoleType RoleViewer]
                else ret okRoles) ;;
    let falseStr := BooleanStr (Dialect_ d) false in
    let sql := legacy_sql (len okRoles) falseStr in
    params <- literal [VInt64 (OrgId d); VPermissionType (PermissionLevel d);
                       VInt64 (UserId d); VInt64 (UserId d)] ;;
    roles <- elems okRoles ;;
    params <- append growslice params roles ;;
    params <- append growslice params
                [VInt64 (OrgId d); VPermissionType (PermissionLevel d); VInt64 (UserId d)] ;;
    roles <- elems okRoles ;;
    params <- append growslice params roles ;;
    ret (sql, params).

End Legacy.

(** ** The fine-grained filter *)

(** [type clause struct { string; params []interface{} }] *)
Record clause := Clause { text : string; params : slice }.

(** [recQueries] is a slice of clauses that is only appended to and read,
    and a clause is stored by value; the list of its elements is kept.  The
    [params] of each element is a slice header into the store. *)
Record accessControlDashboardPermissionFilter := Filter {
  user : option SignedInUser;
  dashboardActions : list string;
  folderActions : list string;
  features : FeatureToggles;
  where_ : clause;
  recQueries : list clause;
}.

Definition set_where (f : accessControlDashboardPermissionFilter) (c : clause) :=
  Filter (user f) (dashboardActions f) (folderActions f) (features f) c (recQueries f).
Definition set_recQueries (f : accessControlDashboardPermissionFilter) (qs : list clause) :=
  Filter (user f) (dashboardActions f) (folderActions f) (features f) (where_ f) qs.

(** The local variables of [buildClauses] that its two branches update. *)
Record locals := Locals {
  args : slice;
  builder : string;
  permSelector : string;
  permSelectorArgs : slice;
}.

(** Dereferencing a pointer panics on nil. *)
Definition deref {A} (p : option A) : M A :=
  match p with Some a => ret a | None => panic end.

Definition isnil {A} (p : option A) : bool :=
  match p with Some _ => false | None => true end.

(** [a || b], which evaluates [b] only when [a] is false. *)
Definition orelse (a b : M bool) : M bool :=
  x <- a ;; if x then ret true else b.

Section AccessControl.
Context `{Imports}.

(** [func (f *accessControlDashboardPermissionFilter) Where()] *)
Definition Where (f : accessControlDashboardPermissionFilter) : string * slice :=
  (text (where_ f), params (where_ f)).

(** The loop over [wildcards], line 305: true when some wildcard contains
    the scope. *)
Fixpoint anyContains (wildcards : list Wildcards) (scope : string) : bool :=
  match wildcards with
  | [] => false
  | w :: rest => if Contains w scope then true else anyContains rest scope
  end.

(** The loop labelled [outer], line 304: true when it is left by
    [break outer], and then [hasWildcard] is set. *)
Fixpoint scanScopes (scopes : list string) (wildcards : list Wildcards) : bool :=
  match scopes with
  | [] => false
  | scope :: rest =>
      if anyContains wildcards scope then true else scanScopes rest wildcards
  end.

(** The loop over [actions], line 300, with [toCheck] as accumulator. *)
Fixpoint actionsToCheck_loop (actions : list string)
    (permissions : option (gmap string (list string)))
    (wildcards : list Wildcards) (toCheck : list value) : list value :=
  match actions with
  | [] => toCheck
  | a :: rest =>
      let hasWildcard := scanScopes (map_index [] permissions a) wildcards in
      let toCheck := if negb hasWildcard then toCheck ++ [VString a] else toCheck in
      actionsToCheck_loop rest permissions wildcards toCheck
  end.

(** [func actionsToCheck(actions, permissions, wildcards...) []interface{}].
    The result slice is made here with capacity [len(actions)], filled
    within that capacity and handed to a caller that only reads it, so
    its elements are returned as a list. *)
Definition actionsToCheck (actions : list string)
    (permissions : option (gmap string (list string)))
    (wildcards : list Wildcards) : list value :=
  actionsToCheck_loop actions permissions wildcards [].

(** [func (f *accessControlDashboardPermissionFilter) addRecQry(...)] *)
Definition addRecQry (f : accessControlDashboardPermissionFilter)
    (queryName whereUIDSelect : string) (whereParams : slice)
  : M accessControlDashboardPermissionFilter :=
  c <- make (len whereParams) ;;
  copy c whereParams ;;;
  ret (set_recQueries f (recQueries f ++ [
    Clause (queryName +:+ " AS (
			SELECT uid, parent_uid, org_id FROM folder WHERE uid IN " +:+ whereUIDSelect +:+ "
			UNION ALL SELECT f.uid, f.parent_uid, f.org_id FROM folder f INNER JOIN " +:+ queryName +:+ " r ON f.parent_uid = r.uid and f.org_id = r.org_id
		)") c])).

(** The condition of line 157. *)
Definition nothingGranted (f : accessControlDashboardPermissionFilter) : M bool :=
  orelse (ret (isnil (user f)))
    (orelse (u <- deref (user f) ;; ret (isnil (Permissions u)))
            (u <- deref (user f) ;;
             u' <- deref (user f) ;;
             ret (isnil (map_index None (Permissions u) (OrgID u'))))).

(** Lines 173-221 of [buildClauses], the statement
    [if len(f.dashboardActions) > 0 { ... }].  [u] is [*f.user], which the
    caller has checked not to be nil. *)
Definition dashboardBranch (u : SignedInUser) (rolesFilter : string)
    (params : list value) (dashWildcards folderWildcards : Wildcards)
    (f : accessControlDashboardPermissionFilter) (l : locals)
  : M (accessControlDashboardPermissionFilter * locals) :=
  if decide (0 < length (dashboardActions f)) then
    let toCheck := actionsToCheck (dashboardActions f)
                     (map_index None (Permissions u) (OrgID u))
                     [dashWildcards; folderWildcards] in
    if decide (0 < length toCheck) then
      let builder := builder l +:+ "(dashboard.uid IN (SELECT substr(scope, 16) FROM permission WHERE scope LIKE 'dashboards:uid:%'" in
      let builder := builder +:+ rolesFilter in
      args <- append growslice (args l) params ;;
      r <- (if decide (length toCheck = 1) then
              let builder := builder +:+ " AND action = ?" in
              a <- deref (toCheck !! 0) ;;
              args <- append growslice args [a] ;;
              ret (builder, args)
            else
              let builder := builder +:+ (" AND action IN (?" +:+ Repeat ", ?" (length toCheck - 1) +:+ ") GROUP BY role_id, scope HAVING COUNT(action) = ?") in
              args <- append growslice args toCheck ;;
              args <- append growslice args [VInt (Z.of_nat (length toCheck))] ;;
              ret (builder, args)) ;;
      let '(builder, args) := r in
      let builder := builder +:+ ") AND NOT dashboard.is_folder)" in
      let builder := builder +:+ " OR " in
      let builder := builder +:+ "(dashboard.folder_id IN (SELECT id FROM dashboard as d " in
      let permSelector := permSelector l +:+ "(SELECT substr(scope, 13) FROM permission WHERE scope LIKE 'folders:uid:%' " in
      let permSelector := permSelector +:+ rolesFilter in
      permSelectorArgs <- append growslice (permSelectorArgs l) params ;;
      r <- (if decide (length toCheck = 1) then
              let permSelector := permSelector +:+ " AND action = ?" in
              a <- deref (toCheck !! 0) ;;
              permSelectorArgs <- append growslice permSelectorArgs [a] ;;
              ret (permSelector, permSelectorArgs)
            else
              let permSelector := permSelector +:+ (" AND action IN (?" +:+ Repeat ", ?" (length toCheck - 1) +:+ ") GROUP BY role_id, scope HAVING COUNT(action) = ?") in
              permSelectorArgs <- append growslice permSelectorArgs toCheck ;;
              permSelectorArgs <- append growslice permSelectorArgs [VInt (Z.of_nat (length toCheck))] ;;
              ret (permSelector, permSelectorArgs)) ;;
      let '(permSelector, permSelectorArgs) := r in
      let permSelector := permSelector +:+ ")" in
      r <- (if IsEnabled (features f) FlagNestedFolders then
              let recQueryName := "RecQry" +:+ Sprintf_d (length (recQueries f)) in
              f <- addRecQry f recQueryName permSelector permSelectorArgs ;;
              let builder := builder +:+ ("WHERE d.uid IN (SELECT uid FROM " +:+ recQueryName +:+ ")") in
              ret (f, builder, args)
            else
              let builder := builder +:+ "WHERE d.uid IN " in
              let builder := builder +:+ permSelector in
              xs <- elems permSelectorArgs ;;
              args <- append growslice args xs ;;
              ret (f, builder, args)) ;;
      let '(f, builder, args) := r in
      let builder := builder +:+ ") AND NOT dashboard.is_folder)" in
      ret (f, Locals args builder permSelector permSelectorArgs)
    else
      let builder := builder l +:+ "NOT dashboard.is_folder" in
      ret (f, Locals (args l) builder (permSelector l) (permSelectorArgs l))
  else ret (f, l).

(** Lines 227-261 of [buildClauses], the statement
    [if len(f.folderActions) > 0 { ... }]. *)
Definition folderBranch (u : SignedInUser) (rolesFilter : string)
    (params : list value) (folderWildcards : Wildcards)
    (f : accessControlDashboardPermissionFilter) (l : locals)
  : M (accessControlDashboardPermissionFilter * locals) :=
  if decide (0 < length (folderActions f)) then
    let builder :=
      if decide (0 < length (dashboardActions f)) then builder l +:+ " OR "
      else builder l in
    let toCheck := actionsToCheck (folderActions f)
                     (map_index None (Permissions u) (OrgID u))
                     [folderWildcards] in
    if decide (0 < length toCheck) then
      let builder := builder +:+ "(dashboard.uid IN " in
      let permSelector := permSelector l +:+ "(SELECT substr(scope, 13) FROM permission WHERE scope LIKE 'folders:uid:%'" in
      let permSelector := permSelector +:+ rolesFilter in
      permSelectorArgs <- append growslice (permSelectorArgs l) params ;;
      r <- (if decide (length toCheck = 1) then
              let permSelector := permSelector +:+ " AND action = ?" in
              a <- deref (toCheck !! 0) ;;
              permSelectorArgs <- append growslice permSelectorArgs [a] ;;
              ret (permSelector, permSelectorArgs)
            else
              let permSelector := permSelector +:+ (" AND action IN (?" +:+ Repeat ", ?" (length toCheck - 1) +:+ ") GROUP BY role_id, scope HAVING COUNT(action) = ?") in
              permSelectorArgs <- append growslice permSelectorArgs toCheck ;;
              permSelectorArgs <- append growslice permSelectorArgs [VInt (Z.of_nat (length toCheck))] ;;
              ret (permSelector, permSelectorArgs)) ;;
      let '(permSelector, permSelectorArgs) := r in
      let permSelector := permSelector +:+ ")" in
      r <- (if IsEnabled (features f) FlagNestedFolders then
              let recQueryName := "RecQry" +:+ Sprintf_d (length (recQueries f)) in
              f <- addRecQry f recQueryName permSelector permSelectorArgs ;;
              let builder := builder +:+ ("(SELECT uid FROM " +:+ recQueryName +:+ ")") in
              ret (f, builder, args l)
            else
              let builder := builder +:+ permSelector in
              xs <- elems permSelectorArgs ;;
              args <- append growslice (args l) xs ;;
              ret (f, builder, args)) ;;
      let '(f, builder, args) := r in
      let builder := builder +:+ " AND dashboard.is_folder)" in
      ret (f, Locals args builder permSelector permSelectorArgs)
    else
      let builder := builder +:+ "dashboard.is_folder" in
      ret (f, Locals (args l) builder (permSelector l) (permSelectorArgs l))
  else ret (f, l).

(** [func (f *accessControlDashboardPermissionFilter) buildClauses()].  The
    receiver is a pointer; the updated filter is returned. *)
Definition buildClauses (f : accessControlDashboardPermissionFilter)
  : M accessControlDashboardPermissionFilter :=
  c <- nothingGranted f ;;
  if c then ret (set_where f (Clause "(1 = 0)" nil_slice))
  else
    u <- deref (user f) ;;
    let dashWildcards := WildcardsFromPrefix ScopeDashboardsPrefix in
    let folderWildcards := WildcardsFromPrefix ScopeFoldersPrefix in
    let '(filter, params) :=
      UserRolesFilter (OrgID u) (UserID u) (Teams u) (GetOrgRoles (user f)) in
    let rolesFilter := " AND role_id IN(SELECT id FROM role " +:+ filter +:+ ") " in
    let l := Locals nil_slice "(" "" nil_slice in
    st <- dashboardBranch u rolesFilter params dashWildcards folderWildcards f l ;;
    let '(f, l) := st in
    (* recycle and reuse *)
    let l := Locals (args l) (builder l) "" (reslice0 (permSelectorArgs l)) in
    st <- folderBranch u rolesFilter params folderWildcards f l ;;
    let '(f, l) := st in
    let builder := builder l +:+ ")" in
    ret (set_where f (Clause builder (args l))).

(** The loop of [With] over [f.recQueries[1:]], line 276. *)
Fixpoint With_loop (rs : list clause) (sb : string) (params_ : slice)
  : M (string * slice) :=
  match rs with
  | [] => ret (sb, params_)
  | r :: rest =>
      let sb := sb +:+ "," in
      let sb := sb +:+ text r in
      xs <- elems (params r) ;;
      params_ <- append growslice params_ xs ;;
      With_loop rest sb params_
  end.

(** [func (f *accessControlDashboardPermissionFilter) With()] *)
Definition With (f : accessControlDashboardPermissionFilter) : M (string * slice) :=
  let sb := "" in
  let params_ := nil_slice in
  if decide (0 < length (recQueries f)) then
    let sb := sb +:+ "WITH RECURSIVE " in
    r0 <- deref (recQueries f !! 0) ;;
    let sb := sb +:+ text r0 in
    xs <- elems (params r0) ;;
    params_ <- append growslice params_ xs ;;
    With_loop (drop 1 (recQueries f)) sb params_
  else ret (sb, params_).

(** [func NewAccessControlDashboardPermissionFilter(user, permissionLevel,
    queryType, features)].  [recQueries] starts as an empty slice. *)
Definition NewAccessControlDashboardPermissionFilter (user : option SignedInUser)
    (permissionLevel : Z) (queryType : string) (features : FeatureToggles)
  : M accessControlDashboardPermissionFilter :=
  let needEdit := bool_decide (PERMISSION_VIEW < permissionLevel)%Z in
  let folderActions : list string := [] in
  let dashboardActions : list string := [] in
  let '(folderActions, dashboardActions) :=
    if decide (queryType = TypeFolder) then
      let folderActions := folderActions ++ [ActionFoldersRead] in
      let folderActions :=
        if needEdit then folderActions ++ [ActionDashboardsCreate] else folderActions in
      (folderActions, dashboardActions)
    else if decide (queryType = TypeDashboard) then
      let dashboardActions := dashboardActions ++ [ActionDashboardsRead] in
      let dashboardActions :=
        if needEdit then dashboardActions ++ [ActionDashboardsWrite] else dashboardActions in
      (folderActions, dashboardActions)
    else if decide (queryType = TypeAlertFolder) then
      let folderActions := folderActions ++ [ActionFoldersRead; ActionAlertingRuleRead] in
      let folderActions :=
        if needEdit then folderActions ++ [ActionAlertingRuleCreate] else folderActions in
      (folderActions, dashboardActions)
    else
      let folderActions := folderActions ++ [ActionFoldersRead] in
      let dashboardActions := dashboardActions ++ [ActionDashboardsRead] in
      if needEdit then
        (folderActions ++ [ActionDashboardsCreate], dashboardActions ++ [ActionDashboardsWrite])
      else (folderActions, dashboardActions) in
  let f := Filter user dashboardActions folderActions features (Clause "" nil_slice) [] in
  buildClauses f.

End AccessControl.

(** ** The parameters of one scope-membership subquery *)

(** What lines 181-188 (and their two repetitions) append for the actions
    [toCheck]: the action itself when there is one, the actions followed by
    their number otherwise. *)
Definition actionParams (toCheck : list value) : list value :=
  if decide (length toCheck = 1) then toCheck
  else toCheck ++ [VInt (Z.of_nat (length toCheck))].

(** ** What one branch of [buildClauses] does *)

(** The outcome of a branch that starts with [args] holding [A]: it adds [cs]
    to the recursive definitions, each capturing the parameters [sub] of a
    subquery in an array of its own, appends [inl] copies of [sub] to
    [args], and adds [holes] placeholders to the text per copy. *)
Definition branch_post (f : accessControlDashboardPermissionFilter) (l : locals)
    (A : list value) (F : list (slice * list value))
    (inl recs : nat) (sub : list value) (holes : nat)
    (r : accessControlDashboardPermissionFilter * locals) (h' : heap) : Prop :=
  ∃ cs P',
    r.1 = set_recQueries f (recQueries f ++ cs)
    ∧ length cs = recs
    ∧ Forall (λ c, count_q (text c) = holes) cs
    ∧ owns h' ((args r.2, A ++ concat (replicate inl sub))
               :: (permSelectorArgs r.2, P')
               :: ((λ c, (params c, sub)) <$> cs) ++ F)
    ∧ count_q (builder r.2) = count_q (builder l) + inl * holes.

(** Subqueries that the dashboard branch writes into the predicate. *)
Definition dashboardInline (nested : bool) (toCheck : list value) : nat :=
  match toCheck with [] => 0 | _ => if nested then 1 else 2 end.

(** Subqueries that the folder branch writes into the predicate. *)
Definition folderInline (nested : bool) (toCheck : list value) : nat :=
  match toCheck with [] => 0 | _ => if nested then 0 else 1 end.

(** Recursive definitions that a branch creates. *)
Definition recCount (nested : bool) (toCheck : list value) : nat :=
  match toCheck with [] => 0 | _ => if nested then 1 else 0 end.

(** ** What [buildClauses] and [With] compute *)

(** [strings.Join(ts, ",")], as a description of the text of [With]. *)
Fixpoint comma_tail (ts : list string) : string :=
  match ts with
  | [] => ""
  | t :: rest => "," +:+ t +:+ comma_tail rest
  end.

Definition join_comma (ts : list string) : string :=
  match ts with
  | [] => ""
  | t :: rest => t +:+ comma_tail rest
  end.

Section CompiledFilter.
Context `{Imports}.

(** The actions of the dashboard branch that need an explicit check. *)
Definition dashboardToCheck (f : accessControlDashboardPermissionFilter)
    (u : SignedInUser) : list value :=
  actionsToCheck (dashboardActions f) (map_index None (Permissions u) (OrgID u))
    [WildcardsFromPrefix ScopeDashboardsPrefix; WildcardsFromPrefix ScopeFoldersPrefix].

(** The actions of the folder branch that need an explicit check. *)
Definition folderToCheck (f : accessControlDashboardPermissionFilter)
    (u : SignedInUser) : list value :=
  actionsToCheck (folderActions f) (map_index None (Permissions u) (OrgID u))
    [WildcardsFromPrefix ScopeFoldersPrefix].

(** The result of [buildClauses] for a user with a permission-index entry:
    [cs1] and [cs2] are the recursive definitions of the dashboard and of
    the folder branch, [sub1] and [sub2] the parameters of their
    subqueries. *)
Definition compiled (f : accessControlDashboardPermissionFilter) (u : SignedInUser)
    (F : list (slice * list value))
    (f' : accessControlDashboardPermissionFilter) (h' : heap) : Prop :=
  let nested := IsEnabled (features f) FlagNestedFolders in
  let rf := UserRolesFilter (OrgID u) (UserID u) (Teams u) (GetOrgRoles (user f)) in
  let dtc := dashboardToCheck f u in
  let ftc := folderToCheck f u in
  let sub1 := rf.2 ++ actionParams dtc in
  let sub2 := rf.2 ++ actionParams ftc in
  let holes1 := count_q rf.1 + length (actionParams dtc) in
  let holes2 := count_q rf.1 + length (actionParams ftc) in
  ∃ cs1 cs2,
    f' = Filter (user f) (dashboardActions f) (folderActions f) (features f)
           (where_ f') (recQueries f ++ cs1 ++ cs2)
    ∧ length cs1 = recCount nested dtc
    ∧ length cs2 = recCount nested ftc
    ∧ Forall (λ c, count_q (text c) = holes1) cs1
    ∧ Forall (λ c, count_q (text c) = holes2) cs2
    ∧ owns h' ((params (where_ f'),
                 concat (replicate (dashboardInline nested dtc) sub1)
                 ++ concat (replicate (folderInline nested ftc) sub2))
               :: ((λ c, (params c, sub1)) <$> cs1)
               ++ ((λ c, (params c, sub2)) <$> cs2) ++ F)
    ∧ count_q (text (where_ f'))
      = dashboardInline nested dtc * holes1 + folderInline nested ftc * holes2.

(** The text that [With] returns for definitions with texts [ts]. *)
Definition with_text (ts : list string) : string :=
  match ts with
  | [] => ""
  | _ => "WITH RECURSIVE " +:+ join_comma ts
  end.

End CompiledFilter.

(** ** Coverage by a wildcard *)

Section Coverage.
Context `{Imports}.

(** The action [a] has a granted scope that one of the wildcards
    contains. *)
Definition covered (permissions : option (gmap string (list string)))
    (wildcards : list Wildcards) (a : string) : Prop :=
  Exists (λ scope, Exists (λ w, Contains w scope = true) wildcards)
    (map_index [] permissions a).

#[global] Instance covered_dec permissions wildcards a :
  Decision (covered permissions wildcards a).
Proof. unfold covered. apply _. Defined.

End Coverage.

Section ActionSets.
Context `{Imports}.

(** The action sets of the last branch of the constructor. *)
Definition mixedFolderActions (permissionLevel : Z) : list string :=
  if bool_decide (PERMISSION_VIEW < permissionLevel)%Z
  then [ActionFoldersRead; ActionDashboardsCreate] else [ActionFoldersRead].

Definition mixedDashboardActions (permissionLevel : Z) : list string :=
  if bool_decide (PERMISSION_VIEW < permissionLevel)%Z
  then [ActionDashboardsRead; ActionDashboardsWrite] else [ActionDashboardsRead].

(** The roles that satisfy the level of role [r], [okRoles] of [Where]. *)
Definition okRoles (r : string) : list value :=
  VRoleType r :: (if decide (r = RoleEditor) then [VRoleType RoleViewer] else []).

End ActionSets.

(** ** A concrete configuration *)

(** Values for the imported names, a role resolver with two parameters and
    wildcards kept as the list of scopes they contain. *)
#[local] Instance sample_imports : Imports := {|
  RoleAdmin := "Admin";
  RoleEditor := "Editor";
  RoleViewer := "Viewer";
  PERMISSION_VIEW := 1%Z;
  ActionFoldersRead := "folders:read";
  ActionDashboardsCreate := "dashboards:create";
  ActionDashboardsRead := "dashboards:read";
  ActionDashboardsWrite := "dashboards:write";
  ScopeDashboardsPrefix := "dashboards:uid:";
  ScopeFoldersPrefix := "folders:uid:";
  TypeFolder := "dash-folder";
  TypeDashboard := "dash-db";
  TypeAlertFolder := "dash-folder-alerting";
  FlagNestedFolders := "nestedFolders";
  ActionAlertingRuleRead := "alert.rules:read";
  ActionAlertingRuleCreate := "alert.rules:create";
  Wildcards := list string;
  WildcardsFromPrefix := λ prefix, ["*"; prefix +:+ "*"];
  Contains := λ w scope, bool_decide (scope ∈ w);
  UserRolesFilter := λ orgID userID _ _,
    ("WHERE org_id = ? AND user_id = ?", [VInt64 orgID; VInt64 userID]);
  GetOrgRoles := λ _, ["Viewer"];
  growslice := λ old _, 2 * old;
|}.

Definition sample_dialect : Dialect := {| BooleanStr := λ b, if b then "1" else "0" |}.
Definition nested_on : FeatureToggles := {| IsEnabled := λ _, true |}.
Definition nested_off : FeatureToggles := {| IsEnabled := λ _, false |}.

(** A user of organization 1 who may read one dashboard and every folder. *)
Definition sample_user : SignedInUser := {|
  OrgID := 1;
  UserID := 7;
  Teams := [];
  Permissions := Some {[ 1%Z := Some {[
    "dashboards:read" := ["dashboards:uid:abc"];
    "folders:read" := ["folders:uid:*"] ]} ]};
|}.

(** A user whose permission index has no entry for organization 1. *)
Definition stranger : SignedInUser := {|
  OrgID := 1;
  UserID := 8;
  Teams := [];
  Permissions := Some {[ 2%Z := Some ∅ ]};
|}.

Definition sample_legacy (role : string) : DashboardPermissionFilter := {|
  OrgRole := role;
  Dialect_ := sample_dialect;
  UserId := 7;
  OrgId := 1;
  PermissionLevel := 2;
|}.

Definition sample_filter (dashboardActions folderActions : list string)
    (features : FeatureToggles) (recQueries : list clause) :=
  Filter (Some sample_user) dashboardActions folderActions features
    (Clause "" nil_slice) recQueries.

(** ** The parameters that a compiled filter binds *)

Section BoundParams.
Context `{Imports}.

(** The parameters of the subquery that checks [toCheck] for the user [u]
    of the filter [f]: those of the role resolver, then those of the
    actions. *)
Definition subqueryParams (f : accessControlDashboardPermissionFilter)
    (u : SignedInUser) (toCheck : list value) : list value :=
  (UserRolesFilter (OrgID u) (UserID u) (Teams u) (GetOrgRoles (user f))).2
  ++ actionParams toCheck.

(** The parameters of the predicate: those of the subqueries that the
    dashboard branch and then the folder branch write into the predicate
    itself. *)
Definition predicateParams (f : accessControlDashboardPermissionFilter)
    (u : SignedInUser) : list value :=
  let nested := IsEnabled (features f) FlagNestedFolders in
  concat (replicate (dashboardInline nested (dashboardToCheck f u))
            (subqueryParams f u (dashboardToCheck f u)))
  ++ concat (replicate (folderInline nested (folderToCheck f u))
               (subqueryParams f u (folderToCheck f u))).

(** The parameters of the preamble: those of the subqueries that the two
    branches move into recursive definitions. *)
Definition preambleParams (f : accessControlDashboardPermissionFilter)
    (u : SignedInUser) : list value :=
  let nested := IsEnabled (features f) FlagNestedFolders in
  concat (replicate (recCount nested (dashboardToCheck f u))
            (subqueryParams f u (dashboardToCheck f u)))
  ++ concat (replicate (recCount nested (folderToCheck f u))
               (subqueryParams f u (folderToCheck f u))).

End BoundParams.

(** ** The texts of a branch *)

(** What a branch does to the texts: it appends [s] to the predicate, not
    empty when the branch has actions, and adds at most one definition,
    named after the number of definitions before it. *)
Definition text_shape (actions : list string)
    (f : accessControlDashboardPermissionFilter) (l : locals)
    (f1 : accessControlDashboardPermissionFilter) (l1 : locals) : Prop :=
  ∃ s cs,
    builder l1 = builder l +:+ s
    ∧ f1 = set_recQueries f (recQueries f ++ cs)
    ∧ (0 < length actions → 0 < String.length s)
    ∧ length cs ≤ 1
    ∧ Forall (λ c, ∃ rest, text c = "RecQry" +:+ Sprintf_d (length (recQueries f))
                                    +:+ " AS (" +:+ rest) cs.


(** ** More of the concrete configuration *)

(** A user of organization 2 with grants of the same kinds as
    [sample_user], on other scopes. *)
Definition other_user : SignedInUser := {|
  OrgID := 2;
  UserID := 9;
  Teams := [3%Z];
  Permissions := Some {[ 2%Z := Some {[
    "dashboards:read" := ["dashboards:uid:xyz"; "dashboards:uid:uvw"];
    "folders:read" := ["folders:uid:*"] ]} ]};
|}.

(** * Proofs *)

(** ** The store-passing monad and the store *)

Lemma wp_ret {A} (a : A) h Q : Q a h → wp (ret a) h Q.
Proof. intros HQ. exists a, h. done. Qed.

Lemma wp_bind {A B} (m : M A) (k : A → M B) h Q :
  wp m h (λ a h', wp (k a) h' Q) → wp (bind m k) h Q.
Proof.
  intros (a & h' & Hm & b & h'' & Hk & HQ).
  exists b, h''. unfold bind. rewrite Hm. done.
Qed.

Lemma wp_mono {A} (m : M A) h (Q Q' : A → heap → Prop) :
  wp m h Q → (∀ a h', Q a h' → Q' a h') → wp m h Q'.
Proof. intros (a & h' & Hm & HQ) HQQ. exists a, h'. eauto. Qed.

Lemma pts_length h s xs : pts h s xs → length xs = len s.
Proof.
  unfold pts. destruct (arr s).
  - intros (a & _ & Hl & Hle & <-). rewrite length_take. lia.
  - intros (-> & _ & ->). done.
Qed.

Lemma pts_lt h s xs l : pts h s xs → arr s = Some l → l < length h.
Proof.
  unfold pts. intros H E. rewrite E in H. destruct H as (a & Ha & _).
  by eapply lookup_lt_Some.
Qed.

Lemma owns_nil h : owns h [].
Proof. split; [constructor | simpl; constructor]. Qed.

Lemma owns_one h s xs : pts h s xs → owns h [(s, xs)].
Proof.
  intros Hp. split; [by constructor|]. simpl.
  destruct (arr s); [apply NoDup_singleton | apply NoDup_nil_2].
Qed.

Lemma owns_pts h F s xs : owns h F → (s, xs) ∈ F → pts h s xs.
Proof. intros [HF _] Hp. rewrite Forall_forall in HF. by apply (HF (s, xs)). Qed.

Lemma owns_tail h p F : owns h (p :: F) → owns h F.
Proof.
  intros [HF HN]. split; [by inversion HF|].
  simpl in HN. destruct (arr p.1); [by inversion HN | done].
Qed.

Lemma owns_perm h F F' : F ≡ₚ F' → owns h F → owns h F'.
Proof.
  intros HP [HF HN]. split; [by rewrite <- HP|].
  by rewrite <- (omap_Permutation _ _ _ HP).
Qed.

Lemma owns_fresh_nil h F : owns h F → owns h ((nil_slice, []) :: F).
Proof.
  intros [HF HN]. split; [|done].
  constructor; [|done]. by unfold pts.
Qed.

Lemma owns_reslice0 h s xs F : owns h ((s, xs) :: F) → owns h ((reslice0 s, []) :: F).
Proof.
  intros [HF HN]. split; [|done].
  inversion HF as [|? ? Hp HF']; subst. constructor; [|done].
  unfold pts in *. simpl in *. destruct (arr s).
  - destruct Hp as (a & Ha & Hl & _ & _). exists a. repeat split; [done|done|lia].
  - destruct Hp as (_ & -> & _). done.
Qed.

Lemma omap_arr_lt h F l :
  Forall (λ p, pts h p.1 p.2) F → l ∈ omap (λ p : slice * list value, arr p.1) F → l < length h.
Proof.
  intros HF Hl. apply list_elem_of_omap in Hl as (p & Hp & E).
  rewrite Forall_forall in HF. eapply pts_lt; eauto.
Qed.

Lemma length_splice a i ys :
  i + length ys ≤ length a → length (splice a i ys) = length a.
Proof.
  intros H. unfold splice. rewrite !length_app, length_take, length_drop. lia.
Qed.

Lemma take_splice a i ys :
  i + length ys ≤ length a → take (i + length ys) (splice a i ys) = take i a ++ ys.
Proof.
  intros H. unfold splice.
  rewrite app_assoc, take_app_length'; [done|].
  rewrite length_app, length_take. lia.
Qed.

(** Writing array [l] keeps every slice that lives elsewhere. *)
Lemma pts_insert_ne h l a s xs :
  arr s ≠ Some l → pts h s xs → pts (<[l := a]> h) s xs.
Proof.
  unfold pts. destruct (arr s) as [l'|]; [|done].
  intros Hne (a' & Ha' & H). exists a'. split; [|done].
  rewrite list_lookup_insert_ne; [done | congruence].
Qed.

(** Allocating keeps every slice. *)
Lemma pts_alloc h a s xs : pts h s xs → pts (h ++ [a]) s xs.
Proof.
  unfold pts. destruct (arr s) as [l'|]; [|done].
  intros (a' & Ha' & H). exists a'. split; [|done].
  by apply lookup_app_l_Some.
Qed.

Lemma owns_alloc h F s xs a l :
  owns h F → l = length h → arr s = Some l → pts (h ++ [a]) s xs →
  owns (h ++ [a]) ((s, xs) :: F).
Proof.
  intros [HF HN] -> E Hp. split.
  - constructor; [done|]. eapply Forall_impl; [exact HF|].
    intros p. apply pts_alloc.
  - simpl. rewrite E. constructor; [|done].
    intros Hin. apply (omap_arr_lt h) in Hin; [lia | done].
Qed.

(** ** Slice operations *)

Section SliceRules.
Variable growslice : nat → nat → nat.

Lemma elems_spec h F s xs :
  owns h F → (s, xs) ∈ F → elems s h = Some (xs, h).
Proof.
  intros HF Hin. pose proof (owns_pts _ _ _ _ HF Hin) as Hp.
  unfold pts in Hp. unfold elems. destruct (arr s) as [l|].
  - destruct Hp as (a & Ha & _ & _ & <-). unfold bind, array_of, ret.
    by rewrite Ha.
  - destruct Hp as (_ & _ & ->). done.
Qed.

Lemma wp_elems h F s xs Q :
  owns h F → (s, xs) ∈ F → Q xs h → wp (elems s) h Q.
Proof. intros HF Hin HQ. exists xs, h. split; [by eapply elems_spec | done]. Qed.

Lemma append_spec h F s xs ys :
  owns h ((s, xs) :: F) →
  ∃ s' h', append growslice s ys h = Some (s', h')
           ∧ owns h' ((s', xs ++ ys) :: F)
           ∧ len s' = len s + length ys
           ∧ (arr s' = arr s ∨ arr s' = Some (length h))
           ∧ length h ≤ length h'.
Proof.
  intros Hown. pose proof Hown as [HF HN].
  inversion HF as [|? ? Hp HF']; subst. simpl in Hp.
  pose proof (pts_length _ _ _ Hp) as Hlen.
  unfold append. case_decide as Hfit.
  - (* in place *)
    unfold pts in Hp. destruct (arr s) as [l|] eqn:E.
    + destruct Hp as (a & Ha & Hca & Hle & Hxs).
      unfold bind, array_of, set_array, ret. rewrite Ha.
      eexists _, _. split; [done|].
      split; [|simpl; rewrite length_insert; auto]. split.
      * constructor.
        -- unfold pts. simpl. exists (splice a (len s) ys).
           rewrite list_lookup_insert_eq by (by eapply lookup_lt_Some).
           rewrite length_splice by lia. rewrite take_splice by lia.
           rewrite Hxs. done.
        -- simpl in HN. rewrite E in HN. apply NoDup_cons in HN as [Hni _].
           rewrite Forall_forall in HF'. apply Forall_forall. intros p Hp.
           apply pts_insert_ne; [|by apply HF'].
           intros Ep. apply Hni. apply list_elem_of_omap. eauto.
      * simpl in *. by rewrite E in HN.
    + destruct Hp as (Hl0 & Hc0 & ->).
      assert (ys = []) as -> by (apply length_zero_iff_nil; lia).
      eexists _, _. split; [done|]. split; [|split; [lia | auto]].
      split; [|simpl in *; by rewrite E in *].
      constructor; [|done]. unfold pts; simpl. by rewrite E.
  - (* reallocation *)
    unfold bind. erewrite (elems_spec h _ s xs); [|exact Hown|by left].
    simpl. eexists _, _. split; [done|].
    split; [|simpl; rewrite length_app; split; [done | split; [auto | lia]]].
    eapply owns_alloc; [by eapply owns_tail|done|done|].
    unfold pts; simpl. eexists. rewrite lookup_app_r, Nat.sub_diag by lia.
    split; [done|]. rewrite !length_app, length_replicate.
    split; [lia|]. split; [lia|].
    rewrite app_assoc, take_app_length'; [done|]. rewrite length_app. lia.
Qed.

Lemma wp_append h F s xs ys (Q : slice → heap → Prop) :
  owns h ((s, xs) :: F) →
  (∀ s' h', owns h' ((s', xs ++ ys) :: F) → len s' = len s + length ys → Q s' h') →
  wp (append growslice s ys) h Q.
Proof.
  intros Hown HQ.
  destruct (append_spec h F s xs ys Hown) as (s' & h' & E & H1 & H2 & _).
  exists s', h'. eauto.
Qed.

Lemma elems_pts h s xs : pts h s xs → elems s h = Some (xs, h).
Proof.
  intros Hp. apply (elems_spec h [(s, xs)]); [by apply owns_one | by left].
Qed.

(** [append] to a slice whose array, if any, lies at or above [n]: the
    slices below [n] are not touched. *)
Lemma wp_append_above n h s xs ys (Q : slice → heap → Prop) :
  pts h s xs → (∀ l, arr s = Some l → n ≤ l) → n ≤ length h →
  (∀ s' h', pts h' s' (xs ++ ys) → (∀ l, arr s' = Some l → n ≤ l) →
            n ≤ length h' →
            (∀ t zs, pts h t zs → (∀ l, arr t = Some l → l < n) → pts h' t zs) →
            Q s' h') →
  wp (append growslice s ys) h Q.
Proof.
  intros Hp Hs Hn HQ.
  pose proof (owns_one _ _ _ Hp) as Hown.
  destruct (append_spec h [] s xs ys Hown) as (s' & h' & E & Hown' & _ & Harr & Hmono).
  exists s', h'. split; [done|].
  assert (∀ l, arr s' = Some l → n ≤ l) as Hs'.
  { intros l El. destruct Harr as [Ea|Ea]; rewrite Ea in El.
    - by apply Hs.
    - assert (l = length h) by congruence. lia. }
  apply HQ; [| done | lia |].
  - by eapply owns_pts; [exact Hown'|left].
  - intros t zs Ht Hlt.
    assert (owns h [(s, xs); (t, zs)]) as Hown2.
    { split; [by repeat constructor|]. simpl.
      destruct (arr s) as [l|] eqn:El, (arr t) as [l'|] eqn:El'; simpl;
        try (by apply NoDup_singleton); try (by apply NoDup_nil_2).
      apply NoDup_cons. split; [|apply NoDup_singleton].
      intros ->%list_elem_of_singleton.
      specialize (Hs _ eq_refl). specialize (Hlt _ eq_refl). lia. }
    destruct (append_spec h _ s xs ys Hown2) as (s2 & h2 & E2 & Hown2' & _).
    rewrite E in E2. injection E2 as <- <-.
    eapply owns_pts; [exact Hown2'|]. right; left.
Qed.

Lemma literal_spec h F xs :
  owns h F →
  ∃ s h', literal xs h = Some (s, h') ∧ owns h' ((s, xs) :: F) ∧ len s = length xs.
Proof.
  intros Hown. unfold literal, bind, newarray, ret. eexists _, _.
  split; [done|]. split; [|done].
  eapply owns_alloc; [done..|].
  unfold pts; simpl. eexists. rewrite lookup_app_r, Nat.sub_diag by lia.
  split; [done|]. split; [done|]. split; [done|]. by rewrite take_ge.
Qed.

(** [c := make([]interface{}, len(src)); copy(c, src)] yields a slice with
    the contents of [src] in an array of its own. *)
Lemma make_copy_spec h F src xs :
  owns h F → (src, xs) ∈ F →
  ∃ c h', (c <- make (len src) ;; copy c src ;;; ret c) h = Some (c, h')
          ∧ owns h' ((c, xs) :: F) ∧ arr c = Some (length h).
Proof.
  intros Hown Hin.
  pose proof (pts_length _ _ _ (owns_pts _ _ _ _ Hown Hin)) as Hlen.
  assert (owns (h ++ [replicate (len src) VNil])
            ((Slice (Some (length h)) (len src) (len src), replicate (len src) VNil) :: F))
    as Hown1.
  { eapply owns_alloc; [done..|]. unfold pts; simpl. eexists.
    rewrite lookup_app_r, Nat.sub_diag by lia. split; [done|].
    rewrite length_replicate. split; [done|]. split; [done|].
    rewrite take_ge; [done|]. by rewrite length_replicate. }
  unfold make, copy, bind, newarray, ret. simpl.
  erewrite (elems_spec _ _ src xs); [|exact Hown1|by right].
  unfold array_of, set_array. rewrite lookup_app_r, Nat.sub_diag by lia. simpl.
  eexists _, _. split; [done|]. split; [|done].
  rewrite Nat.min_id, <- Hlen, firstn_all.
  rewrite insert_app_r_alt, Nat.sub_diag by lia. simpl.
  eapply owns_alloc; [done..|].
  unfold pts; simpl. eexists.
  rewrite lookup_app_r, Nat.sub_diag by lia. split; [done|].
  unfold splice. simpl. rewrite drop_ge by (rewrite length_replicate; lia).
  rewrite app_nil_r. split; [done|]. split; [done|]. by rewrite take_ge.
Qed.

End SliceRules.

(** ** Placeholders of assembled texts *)

Lemma string_app_cons (x : ascii) (a b : string) :
  String x a +:+ b = String x (a +:+ b).
Proof. reflexivity. Qed.

Lemma string_app_assoc (a b c : string) : (a +:+ b) +:+ c = a +:+ (b +:+ c).
Proof. induction a as [|x a IH]; [done|]. rewrite !string_app_cons. congruence. Qed.

Lemma string_app_nil_r (a : string) : a +:+ "" = a.
Proof. induction a as [|x a IH]; [done|]. rewrite string_app_cons. congruence. Qed.

Lemma count_q_app (a b : string) : count_q (a +:+ b) = count_q a + count_q b.
Proof.
  induction a as [|x a IH]; [done|]. rewrite string_app_cons. simpl. lia.
Qed.

Lemma count_q_Repeat (s : string) (n : nat) : count_q (Repeat s n) = n * count_q s.
Proof. induction n as [|n IH]; simpl; [done | rewrite count_q_app, IH; lia]. Qed.

Lemma count_q_string_of_uint (d : Decimal.uint) : count_q (NilEmpty.string_of_uint d) = 0.
Proof. induction d; simpl; done. Qed.

Lemma count_q_Sprintf_d (n : nat) : count_q (Sprintf_d n) = 0.
Proof. apply count_q_string_of_uint. Qed.

(** Normalises the placeholder count of a text built by concatenation. *)
Ltac count_holes :=
  repeat (rewrite ?count_q_app, ?count_q_Repeat, ?count_q_Sprintf_d);
  repeat match goal with
         | |- context [count_q (String ?c ?s)] =>
             let n := eval vm_compute in (count_q (String c s)) in
             change (count_q (String c s)) with n
         | |- context [count_q EmptyString] =>
             change (count_q EmptyString) with 0
         end.

Lemma length_actionParams toCheck :
  length (actionParams toCheck)
  = if decide (length toCheck = 1) then 1 else length toCheck + 1.
Proof.
  unfold actionParams. case_decide; [done|]. by rewrite length_app.
Qed.

(** ** The steps of a branch *)

Section BranchRules.
Context `{Imports}.

Lemma wp_append2 h F p s xs ys (Q : slice → heap → Prop) :
  owns h (p :: (s, xs) :: F) →
  (∀ s' h', owns h' (p :: (s', xs ++ ys) :: F) → len s' = len s + length ys → Q s' h') →
  wp (append growslice s ys) h Q.
Proof.
  intros Hown HQ. eapply wp_append.
  - eapply owns_perm; [|exact Hown]. apply Permutation_swap.
  - intros s' h' Hown' Hlen. apply HQ; [|done].
    eapply owns_perm; [|exact Hown']. apply Permutation_swap.
Qed.

(** The three places where the code appends the actions to check. *)
Lemma wp_append_actions h F s xs toCheck (B1 B2 : string)
    (Q : string * slice → heap → Prop) :
  0 < length toCheck →
  owns h ((s, xs) :: F) →
  (∀ s' h', owns h' ((s', xs ++ actionParams toCheck) :: F) →
            Q (if decide (length toCheck = 1) then B1 else B2, s') h') →
  wp (if decide (length toCheck = 1) then
        a <- deref (toCheck !! 0) ;;
        args <- append growslice s [a] ;;
        ret (B1, args)
      else
        args <- append growslice s toCheck ;;
        args <- append growslice args [VInt (Z.of_nat (length toCheck))] ;;
        ret (B2, args)) h Q.
Proof.
  intros Hpos Hown HQ. unfold actionParams in HQ. case_decide as Hk.
  - destruct toCheck as [|a [|b rest]]; simpl in Hk; try lia.
    simpl. apply wp_bind, wp_ret. apply wp_bind.
    eapply wp_append; [exact Hown|]. intros s' h' Hown' _.
    apply wp_ret. by apply HQ.
  - apply wp_bind. eapply wp_append; [exact Hown|]. intros s1 h1 Hown1 _.
    apply wp_bind. eapply wp_append; [exact Hown1|]. intros s2 h2 Hown2 _.
    apply wp_ret. apply HQ. by rewrite <- app_assoc in Hown2.
Qed.

Lemma wp_append_actions2 h F p s xs toCheck (B1 B2 : string)
    (Q : string * slice → heap → Prop) :
  0 < length toCheck →
  owns h (p :: (s, xs) :: F) →
  (∀ s' h', owns h' (p :: (s', xs ++ actionParams toCheck) :: F) →
            Q (if decide (length toCheck = 1) then B1 else B2, s') h') →
  wp (if decide (length toCheck = 1) then
        a <- deref (toCheck !! 0) ;;
        args <- append growslice s [a] ;;
        ret (B1, args)
      else
        args <- append growslice s toCheck ;;
        args <- append growslice args [VInt (Z.of_nat (length toCheck))] ;;
        ret (B2, args)) h Q.
Proof.
  intros Hpos Hown HQ. eapply wp_append_actions; [done| |].
  - eapply owns_perm; [|exact Hown]. apply Permutation_swap.
  - intros s' h' Hown'. apply HQ.
    eapply owns_perm; [|exact Hown']. apply Permutation_swap.
Qed.

(** The placeholders of the text that goes with [actionParams]. *)
Lemma count_q_action_text (b : string) (toCheck : list value) :
  0 < length toCheck →
  count_q (if decide (length toCheck = 1) then b +:+ " AND action = ?"
           else b +:+ (" AND action IN (?" +:+ Repeat ", ?" (length toCheck - 1)
                       +:+ ") GROUP BY role_id, scope HAVING COUNT(action) = ?"))
  = count_q b + length (actionParams toCheck).
Proof.
  intros Hpos. rewrite length_actionParams. case_decide; count_holes; lia.
Qed.

(** [addRecQry] captures the contents of [whereParams] in an array of its
    own and appends one definition. *)
Lemma wp_addRecQry h F f queryName whereUIDSelect whereParams xs
    (Q : accessControlDashboardPermissionFilter → heap → Prop) :
  owns h F → (whereParams, xs) ∈ F →
  (∀ c h', owns h' ((params c, xs) :: F) →
           arr (params c) = Some (length h) →
           count_q (text c) = 2 * count_q queryName + count_q whereUIDSelect →
           Q (set_recQueries f (recQueries f ++ [c])) h') →
  wp (addRecQry f queryName whereUIDSelect whereParams) h Q.
Proof.
  intros Hown Hin HQ.
  destruct (make_copy_spec h F whereParams xs Hown Hin) as (c & h' & E & Hown' & Hc).
  unfold wp, addRecQry. unfold bind in *.
  destruct (make (len whereParams) h) as [[c0 h0]|]; [|done].
  destruct (copy c0 whereParams h0) as [[n h1]|]; [|done].
  unfold ret in *. injection E as -> ->.
  eexists _, _. split; [done|]. apply HQ; [done..|].
  simpl. count_holes. lia.
Qed.

End BranchRules.

Lemma set_recQueries_id f : f = set_recQueries f (recQueries f).
Proof. by destruct f. Qed.

(** Finds a slice in a list of owned slices. *)
Ltac owned := repeat first [apply list_elem_of_here | apply list_elem_of_further].

(** ** The two branches of [buildClauses] *)

Section Branches.
Context `{Imports}.

Lemma dashboardBranch_spec u rolesFilter ps dw fw f l h A F :
  permSelector l = "" →
  owns h ((args l, A) :: (permSelectorArgs l, []) :: F) →
  let toCheck := actionsToCheck (dashboardActions f)
                   (map_index None (Permissions u) (OrgID u)) [dw; fw] in
  let nested := IsEnabled (features f) FlagNestedFolders in
  wp (dashboardBranch u rolesFilter ps dw fw f l) h
     (branch_post f l A F (dashboardInline nested toCheck) (recCount nested toCheck)
        (ps ++ actionParams toCheck)
        (count_q rolesFilter + length (actionParams toCheck))).
Proof.
  intros Hsel Hown toCheck nested. unfold dashboardBranch.
  fold toCheck. fold nested.
  assert (∀ l', args l' = args l → permSelectorArgs l' = permSelectorArgs l →
                count_q (builder l') = count_q (builder l) →
                branch_post f l A F 0 0 (ps ++ actionParams toCheck)
                  (count_q rolesFilter + length (actionParams toCheck)) (f, l') h)
    as Hskip.
  { intros l' E1 E2 E3. exists [], []. rewrite !app_nil_r. simpl.
    rewrite E1, E2. split; [apply set_recQueries_id|]. do 2 (split; [done|]).
    split; [done | lia]. }
  case_decide as Hd.
  2:{ assert (toCheck = []) as E.
      { subst toCheck. destruct (dashboardActions f); [done | simpl in Hd; lia]. }
      assert (dashboardInline nested toCheck = 0 ∧ recCount nested toCheck = 0)
        as [-> ->] by (by rewrite E).
      apply wp_ret. by apply Hskip. }
  case_decide as Hk.
  2:{ assert (toCheck = []) as E by (destruct toCheck; [done | simpl in Hk; lia]).
      assert (dashboardInline nested toCheck = 0 ∧ recCount nested toCheck = 0)
        as [-> ->] by (by rewrite E).
      apply wp_ret. apply Hskip; [done..|]. simpl. count_holes. lia. }
  assert (dashboardInline nested toCheck = (if nested then 1 else 2)
          ∧ recCount nested toCheck = (if nested then 1 else 0)) as [-> ->].
  { destruct toCheck; [simpl in Hk; lia | done]. }
  rewrite Hsel.
  apply wp_bind. eapply wp_append; [exact Hown|]. intros args1 h1 Hown1 _.
  apply wp_bind. eapply wp_append_actions; [done|exact Hown1|].
  intros args2 h2 Hown2. cbn beta iota zeta.
  apply wp_bind. eapply wp_append2; [exact Hown2|]. intros psa1 h3 Hown3 _.
  apply wp_bind. eapply wp_append_actions2; [done|exact Hown3|].
  intros psa2 h4 Hown4. cbn beta iota zeta.
  apply wp_bind. destruct nested.
  - apply wp_bind. eapply wp_addRecQry; [exact Hown4|owned|].
    intros c h5 Hown5 _ Hc. do 2 apply wp_ret.
    exists [c], ([] ++ ps ++ actionParams toCheck). simpl.
    split; [done|]. split; [done|]. split.
    { constructor; [|done]. rewrite Hc. count_holes.
      rewrite count_q_action_text by done. count_holes. lia. }
    split.
    { eapply owns_perm; [|exact Hown5].
      rewrite app_nil_r, <- !app_assoc. simpl.
      etrans; [apply Permutation_swap|]. apply perm_skip, Permutation_swap. }
    count_holes. rewrite count_q_action_text by done. count_holes. lia.
  - apply wp_bind. eapply wp_elems; [exact Hown4|owned|].
    apply wp_bind. eapply wp_append; [exact Hown4|]. intros args3 h5 Hown5 _.
    do 2 apply wp_ret.
    exists [], ([] ++ ps ++ actionParams toCheck). simpl.
    rewrite app_nil_r. split; [apply set_recQueries_id|].
    split; [done|]. split; [done|]. split.
    { by rewrite app_nil_r, <- !app_assoc in *. }
    count_holes. rewrite !count_q_action_text by done. count_holes. lia.
Qed.

Lemma folderBranch_spec u rolesFilter ps fw f l h A F :
  permSelector l = "" →
  owns h ((args l, A) :: (permSelectorArgs l, []) :: F) →
  let toCheck := actionsToCheck (folderActions f)
                   (map_index None (Permissions u) (OrgID u)) [fw] in
  let nested := IsEnabled (features f) FlagNestedFolders in
  wp (folderBranch u rolesFilter ps fw f l) h
     (branch_post f l A F (folderInline nested toCheck) (recCount nested toCheck)
        (ps ++ actionParams toCheck)
        (count_q rolesFilter + length (actionParams toCheck))).
Proof.
  intros Hsel Hown toCheck nested. unfold folderBranch.
  fold toCheck. fold nested.
  assert (∀ l', args l' = args l → permSelectorArgs l' = permSelectorArgs l →
                count_q (builder l') = count_q (builder l) →
                branch_post f l A F 0 0 (ps ++ actionParams toCheck)
                  (count_q rolesFilter + length (actionParams toCheck)) (f, l') h)
    as Hskip.
  { intros l' E1 E2 E3. exists [], []. rewrite !app_nil_r. simpl.
    rewrite E1, E2. split; [apply set_recQueries_id|]. do 2 (split; [done|]).
    split; [done | lia]. }
  case_decide as Hd.
  2:{ assert (toCheck = []) as E.
      { subst toCheck. destruct (folderActions f); [done | simpl in Hd; lia]. }
      assert (folderInline nested toCheck = 0 ∧ recCount nested toCheck = 0)
        as [-> ->] by (by rewrite E).
      apply wp_ret. by apply Hskip. }
  set (builder0 := if decide (0 < length (dashboardActions f))
                   then builder l +:+ " OR " else builder l).
  assert (count_q builder0 = count_q (builder l)) as Hb0.
  { subst builder0. case_decide; [count_holes; lia | done]. }
  case_decide as Hk.
  2:{ assert (toCheck = []) as E by (destruct toCheck; [done | simpl in Hk; lia]).
      assert (folderInline nested toCheck = 0 ∧ recCount nested toCheck = 0)
        as [-> ->] by (by rewrite E).
      apply wp_ret. apply Hskip; [done..|]. simpl. count_holes. lia. }
  assert (folderInline nested toCheck = (if nested then 0 else 1)
          ∧ recCount nested toCheck = (if nested then 1 else 0)) as [-> ->].
  { destruct toCheck; [simpl in Hk; lia | done]. }
  rewrite Hsel.
  apply wp_bind. eapply wp_append2; [exact Hown|]. intros psa1 h1 Hown1 _.
  apply wp_bind. eapply wp_append_actions2; [done|exact Hown1|].
  intros psa2 h2 Hown2. cbn beta iota zeta.
  apply wp_bind. destruct nested.
  - apply wp_bind. eapply wp_addRecQry; [exact Hown2|owned|].
    intros c h3 Hown3 _ Hc. do 2 apply wp_ret.
    exists [c], ([] ++ ps ++ actionParams toCheck). simpl.
    split; [done|]. split; [done|]. split.
    { constructor; [|done]. rewrite Hc. count_holes.
      rewrite count_q_action_text by done. count_holes. lia. }
    split.
    { eapply owns_perm; [|exact Hown3].
      rewrite app_nil_r, <- !app_assoc. simpl.
      etrans; [apply Permutation_swap|]. apply perm_skip, Permutation_swap. }
    count_holes. lia.
  - apply wp_bind. eapply wp_elems; [exact Hown2|owned|].
    apply wp_bind. eapply wp_append; [exact Hown2|]. intros args1 h3 Hown3 _.
    do 2 apply wp_ret.
    exists [], ([] ++ ps ++ actionParams toCheck). simpl.
    rewrite app_nil_r. split; [apply set_recQueries_id|].
    split; [done|]. split; [done|]. split.
    { by rewrite app_nil_r, <- !app_assoc in *. }
    count_holes. rewrite !count_q_action_text by done. count_holes. lia.
Qed.

End Branches.

(** ** [buildClauses] and [With] *)

Section Compile.
Context `{Imports}.

Lemma nothingGranted_eq f h :
  nothingGranted f h
  = Some (match user f with
          | None => true
          | Some u => isnil (map_index None (Permissions u) (OrgID u))
          end, h).
Proof.
  unfold nothingGranted, orelse, bind, ret. destruct (user f) as [u|]; [|done].
  simpl. by destruct (Permissions u).
Qed.

Lemma buildClauses_spec f u h F :
  user f = Some u →
  map_index None (Permissions u) (OrgID u) ≠ None →
  owns h F →
  wp (buildClauses f) h (compiled f u F).
Proof.
  intros Hu Hperm Hown. unfold buildClauses.
  apply wp_bind. exists false, h. split.
  { rewrite nothingGranted_eq, Hu.
    by destruct (map_index None (Permissions u) (OrgID u)). }
  rewrite Hu. apply wp_bind, wp_ret.
  unfold compiled. rewrite <- Hu.
  destruct (UserRolesFilter (OrgID u) (UserID u) (Teams u) (GetOrgRoles (user f)))
    as [filter ps]. simpl fst. simpl snd.
  set (rolesFilter := " AND role_id IN(SELECT id FROM role " +:+ filter +:+ ") ").
  assert (count_q rolesFilter = count_q filter) as Hrf.
  { subst rolesFilter. count_holes. lia. }
  clearbody rolesFilter.
  apply wp_bind. eapply wp_mono.
  { eapply (dashboardBranch_spec u rolesFilter ps _ _ f _ h [] F); [done|].
    simpl. by do 2 apply owns_fresh_nil. }
  intros [f1 l1] h1 (cs1 & P1 & Ef1 & Hl1 & Hc1 & Hown1 & Hb1).
  simpl in Ef1, Hown1, Hb1. subst f1.
  apply wp_bind. eapply wp_mono.
  { eapply (folderBranch_spec u rolesFilter ps _ _ _ h1 _
              (((λ c, (params c, _)) <$> cs1) ++ F)); [done|].
    simpl. eapply owns_perm; [apply Permutation_swap|].
    eapply owns_reslice0. eapply owns_perm; [apply Permutation_swap|].
    exact Hown1. }
  intros [f2 l2] h2 (cs2 & P2 & Ef2 & Hl2 & Hc2 & Hown2 & Hb2).
  simpl in Ef2, Hl2, Hc2, Hown2, Hb2. subst f2.
  apply wp_ret. exists cs1, cs2. simpl.
  split; [by rewrite app_assoc|].
  fold (dashboardToCheck f u) in *. fold (folderToCheck f u) in *.
  rewrite Hrf in *.
  do 4 (split; [done|]). split.
  - eapply owns_perm; [|eapply owns_tail; eapply owns_perm;
                         [apply Permutation_swap | exact Hown2]].
    apply perm_skip. rewrite !app_assoc. apply Permutation_app_tail.
    apply Permutation_app_comm.
  - count_holes. rewrite Hb2, Hb1. simpl. lia.
Qed.

Lemma With_loop_spec h0 rs : ∀ xss sb p xs h,
  Forall2 (λ r x, pts h0 (params r) x) rs xss →
  (∀ t zs, pts h0 t zs → pts h t zs) →
  length h0 ≤ length h →
  pts h p xs → (∀ l, arr p = Some l → length h0 ≤ l) →
  wp (With_loop rs sb p) h (λ r h',
      r.1 = sb +:+ comma_tail (text <$> rs)
      ∧ pts h' r.2 (xs ++ concat xss)
      ∧ (∀ t zs, pts h0 t zs → pts h' t zs)).
Proof.
  induction rs as [|r rs IH]; intros xss sb p xs h Hrs Hfr Hlen Hp Hab;
    inversion Hrs as [|? x ? xss' Hr Hrs']; subst.
  - apply wp_ret. simpl. by rewrite string_app_nil_r, app_nil_r.
  - simpl. apply wp_bind. exists x, h. split; [by apply elems_pts, Hfr|].
    apply wp_bind. eapply (wp_append_above _ (length h0)); [done..|].
    intros s' h' Hp' Hab' Hlen' Hfr'.
    eapply wp_mono.
    { eapply (IH xss'); [done| |done|exact Hp'|done].
      intros t zs Ht. apply Hfr'; [by apply Hfr|].
      intros l El. by eapply pts_lt. }
    intros [t p'] h'' (E & Hp'' & Hfr''). simpl in *.
    split; [by rewrite E, !string_app_assoc|].
    split; [by rewrite <- app_assoc in Hp''|done].
Qed.

Lemma With_spec f h xss :
  Forall2 (λ r x, pts h (params r) x) (recQueries f) xss →
  wp (With f) h (λ r h',
      r.1 = with_text (text <$> recQueries f)
      ∧ pts h' r.2 (concat xss)
      ∧ (∀ t zs, pts h t zs → pts h' t zs)
      ∧ (recQueries f = [] → r.2 = nil_slice ∧ h' = h)).
Proof.
  intros Hrs. unfold With.
  destruct (recQueries f) as [|r0 rs] eqn:Eq.
  - inversion Hrs; subst. simpl. apply wp_ret. simpl. done.
  - inversion Hrs as [|? x ? xss' Hr Hrs']; subst.
    rewrite decide_True by (simpl; lia). simpl.
    apply wp_bind, wp_ret.
    apply wp_bind. exists x, h. split; [by apply elems_pts|].
    apply wp_bind. eapply (wp_append_above _ (length h) h nil_slice []); [done..|].
    intros s' h' Hp' Hab' Hlen' Hfr'.
    eapply wp_mono.
    { eapply (With_loop_spec h rs xss'); [done| |done|exact Hp'|done].
      intros t zs Ht. apply Hfr'; [done|].
      intros l El. by eapply pts_lt. }
    intros [t p'] h'' (E & Hp'' & Hfr''). simpl in *.
    split; [by rewrite E, !string_app_assoc|]. done.
Qed.

End Compile.

(** ** The wildcard resolver *)

Section Resolver.
Context `{Imports}.

Lemma anyContains_Exists wildcards scope :
  anyContains wildcards scope = true
  ↔ Exists (λ w, Contains w scope = true) wildcards.
Proof.
  induction wildcards as [|w ws IH]; simpl.
  - split; [done | by inversion 1].
  - destruct (Contains w scope) eqn:E.
    + split; [by left | done].
    + rewrite IH. split; [by right|]. inversion 1; [congruence | done].
Qed.

Lemma scanScopes_Exists scopes wildcards :
  scanScopes scopes wildcards = true
  ↔ Exists (λ scope, Exists (λ w, Contains w scope = true) wildcards) scopes.
Proof.
  induction scopes as [|s ss IH]; simpl.
  - split; [done | by inversion 1].
  - destruct (anyContains wildcards s) eqn:E.
    + split; [|done]. intros _. left. by apply anyContains_Exists.
    + rewrite IH. split; [by right|]. inversion 1 as [? ? Hs|]; [|done].
      apply anyContains_Exists in Hs. congruence.
Qed.

Lemma actionsToCheck_loop_filter actions permissions wildcards toCheck :
  actionsToCheck_loop actions permissions wildcards toCheck
  = toCheck ++ (VString <$> filter (λ a, ¬ covered permissions wildcards a) actions).
Proof.
  revert toCheck. induction actions as [|a rest IH]; intros toCheck; simpl.
  - by rewrite app_nil_r.
  - rewrite IH. rewrite filter_cons. unfold covered at 2.
    destruct (scanScopes (map_index [] permissions a) wildcards) eqn:E; simpl.
    + rewrite decide_False; [done|].
      intros Hn. apply Hn. by apply scanScopes_Exists.
    + rewrite decide_True.
      * by rewrite <- app_assoc.
      * intros Hc%scanScopes_Exists. congruence.
Qed.

Lemma actionsToCheck_filter actions permissions wildcards :
  actionsToCheck actions permissions wildcards
  = VString <$> filter (λ a, ¬ covered permissions wildcards a) actions.
Proof. apply actionsToCheck_loop_filter. Qed.

Lemma actionsToCheck_covered actions permissions wildcards :
  Forall (covered permissions wildcards) actions →
  actionsToCheck actions permissions wildcards = [].
Proof.
  intros Hall. rewrite actionsToCheck_filter.
  induction Hall as [|a rest Ha Hrest IH]; [done|].
  rewrite filter_cons, decide_False; [done | tauto].
Qed.

(** C4: [actionsToCheck] returns, in input order, exactly the actions none
    of whose granted scopes is contained by a supplied wildcard; an action
    is dropped if and only if one of its granted scopes is contained by
    one of the wildcards. *)
Theorem actionsToCheck_exactly_uncovered
    (actions : list string) (permissions : option (gmap string (list string)))
    (wildcards : list Wildcards) :
  actionsToCheck actions permissions wildcards
  = VString <$> filter (λ a, ¬ covered permissions wildcards a) actions
  ∧ (∀ a, VString a ∈ actionsToCheck actions permissions wildcards
          ↔ a ∈ actions ∧ ¬ covered permissions wildcards a)
  ∧ (∀ a, covered permissions wildcards a
          ↔ ∃ scope w, scope ∈ map_index [] permissions a
                       ∧ w ∈ wildcards ∧ Contains w scope = true).
Proof.
  split; [apply actionsToCheck_filter|]. split.
  - intros a. rewrite actionsToCheck_filter.
    rewrite list_elem_of_fmap. split.
    + intros (b & Eb & Hb). injection Eb as <-.
      by apply list_elem_of_filter in Hb as [? ?].
    + intros [Ha Hc]. exists a. split; [done|].
      by apply list_elem_of_filter.
  - intros a. unfold covered. rewrite Exists_exists. split.
    + intros (scope & Hs & Hw). apply Exists_exists in Hw as (w & Hw & Hc).
      eauto.
    + intros (scope & w & Hs & Hw & Hc). exists scope. split; [done|].
      apply Exists_exists. eauto.
Qed.

End Resolver.

(** ** Properties of the compiled filters *)

Section Claims.
Context `{Imports}.

Lemma buildClauses_nothing f h :
  match user f with
  | None => True
  | Some u => map_index None (Permissions u) (OrgID u) = None
  end →
  buildClauses f h = Some (set_where f (Clause "(1 = 0)" nil_slice), h).
Proof.
  intros Hn. unfold buildClauses, bind. rewrite nothingGranted_eq.
  destruct (user f) as [u|]; [|done]. by rewrite Hn.
Qed.

(** [buildClauses] never panics, and keeps the fields it does not assign. *)
Lemma buildClauses_total f h F :
  owns h F →
  wp (buildClauses f) h (λ f' h',
    match user f with
    | Some u =>
        if isnil (map_index None (Permissions u) (OrgID u))
        then f' = set_where f (Clause "(1 = 0)" nil_slice) ∧ h' = h
        else compiled f u F f' h'
    | None => f' = set_where f (Clause "(1 = 0)" nil_slice) ∧ h' = h
    end).
Proof.
  intros Hown. destruct (user f) as [u|] eqn:Hu.
  - destruct (map_index None (Permissions u) (OrgID u)) as [m|] eqn:Hm; simpl.
    + eapply wp_mono; [apply (buildClauses_spec f u h F); [done| |done]|done].
      by rewrite Hm.
    + eexists _, _. split; [|done]. apply buildClauses_nothing. by rewrite Hu.
  - eexists _, _. split; [|done]. apply buildClauses_nothing. by rewrite Hu.
Qed.

Lemma compiled_actions f u F f' h' :
  compiled f u F f' h' →
  user f' = user f ∧ dashboardActions f' = dashboardActions f
  ∧ folderActions f' = folderActions f ∧ features f' = features f.
Proof. intros (cs1 & cs2 & -> & _). done. Qed.

(** C3: a user context without a permission-index entry for its
    organization compiles to the predicate "(1 = 0)" with no parameters,
    for every query type and permission level; the store is not touched. *)
Theorem no_org_entry_denies_all (u : SignedInUser) (permissionLevel : Z)
    (queryType : string) (features : FeatureToggles) (h : heap) :
  map_index None (Permissions u) (OrgID u) = None →
  ∃ f, NewAccessControlDashboardPermissionFilter (Some u) permissionLevel
         queryType features h = Some (f, h)
       ∧ Where f = ("(1 = 0)", nil_slice).
Proof.
  intros Hn. unfold NewAccessControlDashboardPermissionFilter.
  match goal with
  | |- context [let '(_, _) := ?e in _] => destruct e as [fa da]
  end.
  eexists. split; [by apply buildClauses_nothing|done].
Qed.

(** C9: with a nil user, or a user whose [Permissions] map is nil,
    [buildClauses] does not panic and sets the predicate "(1 = 0)" with no
    parameters, and so does the constructor. *)
Theorem nil_user_or_permissions_denies_all
    (f : accessControlDashboardPermissionFilter) (user_ : option SignedInUser)
    (permissionLevel : Z) (queryType : string) (features : FeatureToggles)
    (h : heap) :
  (user_ = None ∨ ∃ u, user_ = Some u ∧ Permissions u = None) →
  (user f = user_ →
   buildClauses f h = Some (set_where f (Clause "(1 = 0)" nil_slice), h))
  ∧ ∃ f', NewAccessControlDashboardPermissionFilter user_ permissionLevel
            queryType features h = Some (f', h)
          ∧ Where f' = ("(1 = 0)", nil_slice).
Proof.
  intros Hnil.
  assert (match user_ with
          | None => True
          | Some u => map_index None (Permissions u) (OrgID u) = None
          end) as Hm.
  { destruct Hnil as [->|(u & -> & Hp)]; [done|]. by rewrite Hp. }
  split.
  - intros Hu. apply buildClauses_nothing. by rewrite Hu.
  - unfold NewAccessControlDashboardPermissionFilter.
    match goal with
    | |- context [let '(_, _) := ?e in _] => destruct e as [fa da]
    end.
    eexists. split; [by apply buildClauses_nothing|done].
Qed.

(** C8: for the Admin role the legacy filter returns the empty text and
    the nil parameter list, whatever the level and the identifiers. *)
Theorem legacy_admin_unfiltered (d : DashboardPermissionFilter)
    (h : heap) :
  OrgRole d = RoleAdmin →
  DashboardPermissionFilter_Where d h = Some (("", nil_slice), h).
Proof.
  intros Hr. unfold DashboardPermissionFilter_Where.
  by rewrite decide_True.
Qed.

(** C10: for a query type that is none of the folder, dashboard and
    alert-folder types the constructor does not fail and derives the
    folder actions [ActionFoldersRead] and the dashboard actions
    [ActionDashboardsRead], with [ActionDashboardsCreate] and
    [ActionDashboardsWrite] added when the level exceeds View; any two
    such query types give the same filter. *)
Theorem unknown_query_type_is_mixed (user_ : option SignedInUser)
    (permissionLevel : Z) (queryType queryType' : string)
    (features : FeatureToggles) (h : heap) :
  queryType ≠ TypeFolder → queryType ≠ TypeDashboard →
  queryType ≠ TypeAlertFolder →
  (∃ f h', NewAccessControlDashboardPermissionFilter user_ permissionLevel
             queryType features h = Some (f, h')
           ∧ folderActions f = mixedFolderActions permissionLevel
           ∧ dashboardActions f = mixedDashboardActions permissionLevel)
  ∧ (queryType' ≠ TypeFolder → queryType' ≠ TypeDashboard →
     queryType' ≠ TypeAlertFolder →
     NewAccessControlDashboardPermissionFilter user_ permissionLevel
       queryType' features h
     = NewAccessControlDashboardPermissionFilter user_ permissionLevel
         queryType features h).
Proof.
  intros H1 H2 H3. split.
  - unfold NewAccessControlDashboardPermissionFilter.
    rewrite !decide_False by done.
    unfold mixedFolderActions, mixedDashboardActions.
    destruct (bool_decide (PERMISSION_VIEW < permissionLevel)%Z); simpl.
    all: match goal with
         | |- ∃ f h', buildClauses ?f0 _ = _ ∧ _ =>
             destruct (buildClauses_total f0 h [] (owns_nil h)) as (f & h' & E & Hpost);
             exists f, h'; split; [exact E|]; simpl in Hpost
         end.
    all: destruct user_ as [u|];
      [destruct (isnil (map_index None (Permissions u) (OrgID u)));
       [by destruct Hpost as [-> _]
       |by apply compiled_actions in Hpost as (_ & -> & -> & _)]
      |by destruct Hpost as [-> _]].
  - intros H1' H2' H3'. unfold NewAccessControlDashboardPermissionFilter.
    by rewrite !decide_False by done.
Qed.

(** C5: when every action of a non-empty action set has a grant covered
    by a wildcard, the branch adds to the predicate exactly its type tag
    (after the separator " OR " for a folder branch that follows a
    dashboard branch), and it changes neither the parameters, nor the
    recursive definitions, nor the store. *)
Theorem covered_branch_is_type_tag (u : SignedInUser) (rolesFilter : string)
    (ps : list value) (dw fw : Wildcards)
    (f : accessControlDashboardPermissionFilter) (l : locals)
    (h : heap) :
  (0 < length (dashboardActions f) →
   Forall (covered (map_index None (Permissions u) (OrgID u)) [dw; fw])
     (dashboardActions f) →
   dashboardBranch u rolesFilter ps dw fw f l h
   = Some ((f, Locals (args l) (builder l +:+ "NOT dashboard.is_folder")
                 (permSelector l) (permSelectorArgs l)), h))
  ∧ (0 < length (folderActions f) →
     Forall (covered (map_index None (Permissions u) (OrgID u)) [fw])
       (folderActions f) →
     folderBranch u rolesFilter ps fw f l h
     = Some ((f, Locals (args l)
                   ((if decide (0 < length (dashboardActions f))
                     then builder l +:+ " OR " else builder l)
                    +:+ "dashboard.is_folder")
                   (permSelector l) (permSelectorArgs l)), h)).
Proof.
  split; intros Hne Hall.
  - unfold dashboardBranch. rewrite decide_True by done.
    rewrite actionsToCheck_covered by done. done.
  - unfold folderBranch. rewrite decide_True by done.
    rewrite actionsToCheck_covered by done. done.
Qed.

(** C2: when all [k] actions of a branch need an explicit check, every
    subquery of the branch binds the parameters of the role resolver
    followed by [extra], and its text has the placeholders of the role
    filter plus [length extra] more, where [extra] is the one action when
    [k = 1] and the [k] actions followed by the count [k] otherwise: 1 or
    [k + 1] placeholders and parameters.  The dashboard branch writes two
    such subqueries into the predicate, or one and a recursive definition
    with the other when folders nest; the folder branch writes one, or a
    recursive definition with it. *)
Theorem explicit_check_placeholders (u : SignedInUser) (rolesFilter : string)
    (ps : list value) (dw fw : Wildcards)
    (f : accessControlDashboardPermissionFilter) (l : locals)
    (h : heap) (A : list value) (F : list (slice * list value))
    (acts : list string) (k : nat) (extra : list value) :
  permSelector l = "" →
  owns h ((args l, A) :: (permSelectorArgs l, []) :: F) →
  k = length acts → 0 < k →
  extra = (if decide (k = 1) then VString <$> acts
           else (VString <$> acts) ++ [VInt (Z.of_nat k)]) →
  let nested := IsEnabled (features f) FlagNestedFolders in
  let perms := map_index None (Permissions u) (OrgID u) in
  length extra = (if decide (k = 1) then 1 else k + 1)
  ∧ (dashboardActions f = acts →
     actionsToCheck acts perms [dw; fw] = VString <$> acts →
     wp (dashboardBranch u rolesFilter ps dw fw f l) h
       (branch_post f l A F (if nested then 1 else 2) (if nested then 1 else 0)
          (ps ++ extra) (count_q rolesFilter + length extra)))
  ∧ (folderActions f = acts →
     actionsToCheck acts perms [fw] = VString <$> acts →
     wp (folderBranch u rolesFilter ps fw f l) h
       (branch_post f l A F (if nested then 0 else 1) (if nested then 1 else 0)
          (ps ++ extra) (count_q rolesFilter + length extra))).
Proof.
  intros Hsel Hown Hk Hpos Hextra nested perms.
  assert (extra = actionParams (VString <$> acts)) as ->.
  { unfold actionParams. rewrite length_fmap, <- Hk. done. }
  assert (∃ a rest, VString <$> acts = a :: rest) as (a & rest & Ea).
  { destruct acts; [simpl in Hk; lia | simpl; eauto]. }
  split; [|split].
  - rewrite length_actionParams, length_fmap, <- Hk. done.
  - intros Hd Htc.
    pose proof (dashboardBranch_spec u rolesFilter ps dw fw f l h A F Hsel Hown)
      as Hspec.
    simpl in Hspec. rewrite Hd in Hspec. fold perms in Hspec.
    rewrite Htc in Hspec. fold nested in Hspec.
    unfold dashboardInline, recCount in Hspec. by rewrite Ea in Hspec at 1 2.
  - intros Hd Htc.
    pose proof (folderBranch_spec u rolesFilter ps fw f l h A F Hsel Hown)
      as Hspec.
    simpl in Hspec. rewrite Hd in Hspec. fold perms in Hspec.
    rewrite Htc in Hspec. fold nested in Hspec.
    unfold folderInline, recCount in Hspec. by rewrite Ea in Hspec at 1 2.
Qed.

(** C7: [addRecQry] stores the elements of [whereParams] in a new backing
    array, so the captured definition keeps them whatever is later
    written into the caller's array, and in particular when the caller
    truncates its slice to [whereParams[:0]] and appends to it again. *)
Theorem addRecQry_captures_copy (f : accessControlDashboardPermissionFilter)
    (queryName whereUIDSelect : string) (whereParams : slice)
    (xs : list value) (h : heap) :
  pts h whereParams xs →
  ∃ c h',
    addRecQry f queryName whereUIDSelect whereParams h
      = Some (set_recQueries f (recQueries f ++ [c]), h')
    ∧ pts h' (params c) xs
    ∧ arr (params c) = Some (length h)
    ∧ arr (params c) ≠ arr whereParams
    ∧ pts h' whereParams xs
    ∧ (∀ l a, arr whereParams = Some l → pts (<[l := a]> h') (params c) xs)
    ∧ (∀ ys, ∃ s'' h'',
          append growslice (reslice0 whereParams) ys h' = Some (s'', h'')
          ∧ pts h'' s'' ys
          ∧ pts h'' (params c) xs).
Proof.
  intros Hp.
  destruct (wp_addRecQry h [(whereParams, xs)] f queryName whereUIDSelect
              whereParams xs
              (λ f' h', ∃ c, f' = set_recQueries f (recQueries f ++ [c])
                             ∧ owns h' [(params c, xs); (whereParams, xs)]
                             ∧ arr (params c) = Some (length h)))
    as (f' & h' & E & c & -> & Hown & Hc).
  { by apply owns_one. }
  { by left. }
  { intros c h' Hown Hc _. eauto. }
  assert (arr (params c) ≠ arr whereParams) as Hne.
  { intros Ec. rewrite Hc in Ec. symmetry in Ec.
    pose proof (pts_lt _ _ _ _ Hp Ec). lia. }
  exists c, h'. split; [done|].
  split; [by eapply owns_pts; [exact Hown|left]|].
  split; [done|]. split; [done|].
  split; [by eapply owns_pts; [exact Hown|right; left]|].
  split.
  - intros l a El. apply pts_insert_ne; [congruence|].
    by eapply owns_pts; [exact Hown|left].
  - intros ys.
    assert (owns h' [(reslice0 whereParams, []); (params c, xs)]) as Hown'.
    { apply owns_reslice0 with (xs := xs).
      eapply owns_perm; [apply Permutation_swap | exact Hown]. }
    destruct (append_spec growslice h' _ _ _ ys Hown')
      as (s'' & h'' & E'' & Hown'' & _).
    exists s'', h''. split; [done|].
    split; [by eapply owns_pts; [exact Hown''|left]|].
    by eapply owns_pts; [exact Hown''|right; left].
Qed.

(** C6: [With] returns the empty text and the nil slice when there is no
    recursive definition; otherwise its text is "WITH RECURSIVE " followed
    by the texts of the definitions in order, separated by commas, and its
    parameters are those of the definitions, concatenated in the same
    order.  The definitions keep their parameters. *)
Theorem With_joins_definitions (f : accessControlDashboardPermissionFilter)
    (h : heap) (xss : list (list value)) :
  Forall2 (λ r x, pts h (params r) x) (recQueries f) xss →
  ∃ t p h',
    With f h = Some ((t, p), h')
    ∧ (recQueries f = [] → t = "" ∧ p = nil_slice ∧ h' = h)
    ∧ (recQueries f ≠ [] →
       t = "WITH RECURSIVE " +:+ join_comma (text <$> recQueries f))
    ∧ pts h' p (concat xss)
    ∧ Forall2 (λ r x, pts h' (params r) x) (recQueries f) xss.
Proof.
  intros Hrs.
  destruct (With_spec f h xss Hrs) as ([t p] & h' & E & Ht & Hp & Hfr & Hnil).
  simpl in *. exists t, p, h'. split; [done|]. split; [|split; [|split]].
  - intros E0. destruct (Hnil E0) as [-> ->]. by rewrite Ht, E0.
  - intros Hne. rewrite Ht. by destruct (recQueries f).
  - done.
  - eapply Forall2_impl; [exact Hrs|]. intros r x. apply Hfr.
Qed.

Lemma wp_literal h F xs (Q : slice → heap → Prop) :
  owns h F →
  (∀ s h', owns h' ((s, xs) :: F) → len s = length xs → Q s h') →
  wp (literal xs) h Q.
Proof.
  intros Hown HQ. destruct (literal_spec h F xs Hown) as (s & h' & E & H1 & H2).
  exists s, h'. eauto.
Qed.

Lemma legacy_Where_spec d h :
  OrgRole d ≠ RoleAdmin →
  wp (DashboardPermissionFilter_Where d) h (λ r h',
    pts h' r.2 ([VInt64 (OrgId d); VPermissionType (PermissionLevel d);
                 VInt64 (UserId d); VInt64 (UserId d)] ++ okRoles (OrgRole d)
                ++ [VInt64 (OrgId d); VPermissionType (PermissionLevel d);
                    VInt64 (UserId d)] ++ okRoles (OrgRole d))
    ∧ count_q r.1 = 7 + 2 * length (okRoles (OrgRole d))
                    + 2 * count_q (BooleanStr (Dialect_ d) false)).
Proof.
  intros Hr. unfold DashboardPermissionFilter_Where.
  rewrite decide_False by done.
  apply wp_bind. eapply wp_literal; [apply owns_nil|]. intros ok0 h0 Hown0 Hlen0.
  apply wp_bind.
  eapply (wp_mono _ _ (λ ok h', owns h' [(ok, okRoles (OrgRole d))]
                                ∧ len ok = length (okRoles (OrgRole d)))).
  { unfold okRoles. case_decide.
    - eapply wp_append; [exact Hown0|]. intros ok1 h1 Hown1 Hlen1.
      split; [done|]. rewrite Hlen1, Hlen0. done.
    - apply wp_ret. done. }
  intros ok h1 [Hown1 Hlen1]. cbn beta zeta.
  apply wp_bind. eapply wp_literal; [exact Hown1|]. intros p0 h2 Hown2 _.
  apply wp_bind. eapply wp_elems; [exact Hown2|owned|].
  apply wp_bind. eapply wp_append; [exact Hown2|]. intros p1 h3 Hown3 _.
  apply wp_bind. eapply wp_append; [exact Hown3|]. intros p2 h4 Hown4 _.
  apply wp_bind. eapply wp_elems; [exact Hown4|owned|].
  apply wp_bind. eapply wp_append; [exact Hown4|]. intros p3 h5 Hown5 _.
  apply wp_ret. cbn [fst snd]. split.
  - rewrite <- !app_assoc in Hown5. by eapply owns_pts; [exact Hown5|left].
  - rewrite Hlen1. unfold legacy_sql. count_holes.
    assert (0 < length (okRoles (OrgRole d))) as Hpos by (simpl; lia).
    lia.
Qed.

Lemma count_q_comma_tail ts : count_q (comma_tail ts) = sum_list (count_q <$> ts).
Proof. induction ts as [|t ts IH]; csimpl; [done|]. count_holes. lia. Qed.

Lemma count_q_with_text ts : count_q (with_text ts) = sum_list (count_q <$> ts).
Proof.
  destruct ts as [|t ts]; [done|]. unfold with_text, join_comma.
  count_holes. rewrite count_q_comma_tail. csimpl. lia.
Qed.

Lemma sum_list_const {A} (g : A → nat) (l : list A) (n : nat) :
  Forall (λ x, g x = n) l → sum_list (g <$> l) = length l * n.
Proof. induction 1 as [|x l Hx Hl IH]; csimpl; [done | lia]. Qed.

Lemma length_concat_replicate {A} (n : nat) (l : list A) :
  length (concat (replicate n l)) = n * length l.
Proof. induction n as [|n IH]; simpl; [done|]. rewrite length_app. lia. Qed.

Lemma Forall2_owned_replicate h (cs : list clause) (sub : list value) F :
  owns h F →
  Forall (λ c, (params c, sub) ∈ F) cs →
  Forall2 (λ r x, pts h (params r) x) cs (replicate (length cs) sub).
Proof.
  intros Hown. induction 1 as [|c cs Hc Hcs IH]; simpl; constructor; [|done].
  by eapply owns_pts.
Qed.

(** C1: the texts and the parameters agree in number.  For the fine-grained
    filter, with a role resolver whose text has one placeholder per
    parameter, the constructor and [With] do not fail, and the
    placeholders of the preamble followed by the predicate are as many as
    the parameters of [With] followed by those of [Where].  For the legacy
    filter, with a dialect whose spelling of false has no placeholder, the
    placeholders of the text of [Where] are as many as its parameters. *)
Theorem placeholders_match_parameters (user_ : option SignedInUser)
    (permissionLevel : Z) (queryType : string) (features : FeatureToggles)
    (d : DashboardPermissionFilter) (h : heap) :
  (∀ orgID userID teams roles,
      count_q (UserRolesFilter orgID userID teams roles).1
      = length (UserRolesFilter orgID userID teams roles).2) →
  count_q (BooleanStr (Dialect_ d) false) = 0 →
  (∃ f h1 wt wp_ h2 xs ys,
      NewAccessControlDashboardPermissionFilter user_ permissionLevel queryType
        features h = Some (f, h1)
      ∧ With f h1 = Some ((wt, wp_), h2)
      ∧ pts h2 wp_ xs ∧ pts h2 (Where f).2 ys
      ∧ count_q (wt +:+ (Where f).1) = length (xs ++ ys)
      ∧ count_q (wt +:+ (Where f).1) = len wp_ + len (Where f).2)
  ∧ (∃ t p h' zs,
      DashboardPermissionFilter_Where d h = Some ((t, p), h')
      ∧ pts h' p zs
      ∧ count_q t = length zs
      ∧ count_q t = len p).
Proof.
  intros Hbal Hfalse. split.
  - unfold NewAccessControlDashboardPermissionFilter.
    match goal with
    | |- context [let '(_, _) := ?e in _] => destruct e as [fa da]
    end.
    set (f0 := Filter user_ da fa features (Clause "" nil_slice) []).
    destruct (buildClauses_total f0 h [] (owns_nil h)) as (f & h1 & E & Hpost).
    assert (∃ xss ys,
               Forall2 (λ r x, pts h1 (params r) x) (recQueries f) xss
               ∧ pts h1 (params (where_ f)) ys
               ∧ count_q (text (where_ f)) = length ys
               ∧ sum_list (count_q <$> (text <$> recQueries f)) = length (concat xss))
      as (xss & ys & Hrs & Hys & Hcw & Hcr).
    { assert (f = set_where f0 (Clause "(1 = 0)" nil_slice) ∧ h1 = h →
              ∃ xss ys,
                Forall2 (λ r x, pts h1 (params r) x) (recQueries f) xss
                ∧ pts h1 (params (where_ f)) ys
                ∧ count_q (text (where_ f)) = length ys
                ∧ sum_list (count_q <$> (text <$> recQueries f))
                  = length (concat xss)) as Hdeny.
      { intros [-> ->]. exists [], []. simpl. split; [constructor|]. done. }
      simpl in Hpost. destruct user_ as [u|]; [|by apply Hdeny].
      destruct (isnil (map_index None (Permissions u) (OrgID u)));
        [by apply Hdeny|].
      destruct Hpost as (cs1 & cs2 & Ef & Hl1 & Hl2 & Hc1 & Hc2 & Hown & Hcw).
      simpl in *.
      set (rf := UserRolesFilter (OrgID u) (UserID u) (Teams u)
                   (GetOrgRoles (Some u))) in *.
      set (sub1 := rf.2 ++ actionParams (dashboardToCheck f0 u)) in *.
      set (sub2 := rf.2 ++ actionParams (folderToCheck f0 u)) in *.
      assert (count_q rf.1 + length (actionParams (dashboardToCheck f0 u))
              = length sub1) as Hs1.
      { subst sub1. rewrite length_app. subst rf. rewrite Hbal. done. }
      assert (count_q rf.1 + length (actionParams (folderToCheck f0 u))
              = length sub2) as Hs2.
      { subst sub2. rewrite length_app. subst rf. rewrite Hbal. done. }
      rewrite Hs1, Hs2 in *.
      exists (replicate (length cs1) sub1 ++ replicate (length cs2) sub2).
      eexists. rewrite Ef. simpl.
      split; [|split; [by eapply owns_pts; [exact Hown|left]|split]].
      - apply Forall2_app.
        + eapply Forall2_owned_replicate; [exact Hown|].
          apply Forall_forall. intros c Hc. right.
          apply elem_of_app. left.
          by apply (list_elem_of_fmap_2 (λ c0, (params c0, sub1))).
        + eapply Forall2_owned_replicate; [exact Hown|].
          apply Forall_forall. intros c Hc. right.
          apply elem_of_app. right. apply elem_of_app. left.
          by apply (list_elem_of_fmap_2 (λ c0, (params c0, sub2))).
      - rewrite Hcw, length_app, !length_concat_replicate. done.
      - rewrite !fmap_app, sum_list_with_app, concat_app, length_app.
        rewrite !length_concat_replicate.
        rewrite <- !list_fmap_compose.
        rewrite (sum_list_const (count_q ∘ text) cs1 (length sub1)) by done.
        rewrite (sum_list_const (count_q ∘ text) cs2 (length sub2)) by done.
        done. }
    destruct (With_spec f h1 xss Hrs) as ([wt p] & h2 & Ew & Ht & Hp & Hfr & _).
    simpl in Ht, Hp.
    exists f, h1, wt, p, h2, (concat xss), ys.
    split; [done|]. split; [done|]. split; [done|].
    split; [by apply Hfr|].
    assert (count_q (wt +:+ (Where f).1) = length (concat xss ++ ys)) as Hcount.
    { simpl. rewrite count_q_app, Ht, count_q_with_text, Hcr, Hcw, length_app.
      done. }
    split; [done|]. rewrite Hcount, length_app.
    rewrite (pts_length _ _ _ Hp). simpl. by rewrite (pts_length _ _ _ Hys).
  - destruct (decide (OrgRole d = RoleAdmin)) as [Hr|Hr].
    + exists "", nil_slice, h, []. split; [|done].
      unfold DashboardPermissionFilter_Where. by rewrite decide_True.
    + destruct (legacy_Where_spec d h Hr) as ([t p] & h' & E & Hp & Hc).
      simpl in *. eexists t, p, h', _. split; [done|]. split; [exact Hp|].
      assert (count_q t = length
                ([VInt64 (OrgId d); VPermissionType (PermissionLevel d);
                  VInt64 (UserId d); VInt64 (UserId d)] ++ okRoles (OrgRole d)
                 ++ [VInt64 (OrgId d); VPermissionType (PermissionLevel d);
                     VInt64 (UserId d)] ++ okRoles (OrgRole d))) as Hcount.
      { rewrite Hc, Hfalse, !length_app. simpl. lia. }
      split; [done|]. rewrite Hcount. by apply pts_length in Hp.
Qed.

End Claims.

(** ** The theorems at the concrete configuration *)

Lemma placeholders_match_parameters_witness :
  (∀ orgID userID teams roles,
      count_q (UserRolesFilter orgID userID teams roles).1
      = length (UserRolesFilter orgID userID teams roles).2)
  ∧ count_q (BooleanStr (Dialect_ (sample_legacy "Editor")) false) = 0
  ∧ (∃ f h1 wt wp_ h2,
        NewAccessControlDashboardPermissionFilter (Some sample_user) 2 "dash-db"
          nested_on [] = Some (f, h1)
        ∧ With f h1 = Some ((wt, wp_), h2)
        ∧ count_q (wt +:+ (Where f).1) = len wp_ + len (Where f).2)
  ∧ (∃ t p h', DashboardPermissionFilter_Where (sample_legacy "Editor") []
               = Some ((t, p), h')
               ∧ count_q t = len p).
Proof.
  assert (∀ orgID userID teams roles,
             count_q (UserRolesFilter orgID userID teams roles).1
             = length (UserRolesFilter orgID userID teams roles).2) as Hbal
    by (intros; reflexivity).
  split; [exact Hbal|]. split; [reflexivity|].
  destruct (placeholders_match_parameters (Some sample_user) 2 "dash-db" nested_on
              (sample_legacy "Editor") [] Hbal eq_refl)
    as [(f & h1 & wt & wp_ & h2 & xs & ys & E1 & E2 & _ & _ & _ & E3)
        (t & p & h' & zs & E4 & _ & _ & E5)].
  split.
  - exists f, h1, wt, wp_, h2. auto.
  - exists t, p, h'. auto.
Defined.

Lemma explicit_check_placeholders_witness :
  let l := Locals nil_slice "(" "" nil_slice in
  let acts := ["dashboards:write"; "dashboards:create"] in
  let f := sample_filter acts [] nested_on [] in
  let dw := WildcardsFromPrefix ScopeDashboardsPrefix in
  let fw := WildcardsFromPrefix ScopeFoldersPrefix in
  permSelector l = ""
  ∧ owns [] [(args l, []); (permSelectorArgs l, [])]
  ∧ 2 = length acts
  ∧ 0 < 2
  ∧ wp (dashboardBranch sample_user "" [] dw fw f l) []
       (branch_post f l [] [] 1 1
          ([] ++ [VString "dashboards:write"; VString "dashboards:create"; VInt 2])
          (count_q "" + 3)).
Proof.
  intros l acts f dw fw.
  assert (owns [] [(args l, []); (permSelectorArgs l, [])]) as Hown
    by (do 2 apply owns_fresh_nil; apply owns_nil).
  split; [reflexivity|]. split; [exact Hown|]. split; [reflexivity|]. split; [lia|].
  destruct (explicit_check_placeholders sample_user "" [] dw fw f l [] [] [] acts 2
              [VString "dashboards:write"; VString "dashboards:create"; VInt 2]
              eq_refl Hown eq_refl (Nat.lt_0_succ 1) eq_refl) as (_ & Hd & _).
  apply Hd; reflexivity.
Defined.

Lemma no_org_entry_denies_all_witness :
  map_index None (Permissions stranger) (OrgID stranger) = None
  ∧ ∃ f, NewAccessControlDashboardPermissionFilter (Some stranger) 2 "dash-db"
           nested_on [] = Some (f, [])
         ∧ Where f = ("(1 = 0)", nil_slice).
Proof.
  split; [reflexivity|].
  apply (no_org_entry_denies_all stranger 2 "dash-db" nested_on []). reflexivity.
Defined.

Lemma covered_branch_is_type_tag_witness :
  let f := sample_filter [] ["folders:read"] nested_on [] in
  let l := Locals nil_slice "(" "" nil_slice in
  0 < length (folderActions f)
  ∧ Forall (covered (map_index None (Permissions sample_user) (OrgID sample_user))
              [WildcardsFromPrefix ScopeFoldersPrefix]) (folderActions f)
  ∧ folderBranch sample_user "" [] (WildcardsFromPrefix ScopeFoldersPrefix) f l []
    = Some ((f, Locals nil_slice "(dashboard.is_folder" "" nil_slice), []).
Proof.
  intros f l.
  assert (Forall (covered (map_index None (Permissions sample_user) (OrgID sample_user))
                    [WildcardsFromPrefix ScopeFoldersPrefix]) (folderActions f)) as Hall.
  { constructor; [|constructor]. apply (bool_decide_unpack _). vm_compute. exact I. }
  split; [simpl; lia|]. split; [exact Hall|].
  destruct (covered_branch_is_type_tag sample_user "" []
              (WildcardsFromPrefix ScopeDashboardsPrefix)
              (WildcardsFromPrefix ScopeFoldersPrefix) f l []) as [_ Hf].
  apply Hf; [simpl; lia | exact Hall].
Defined.

Lemma With_joins_definitions_witness :
  let f := sample_filter [] [] nested_on
             [Clause "a" (Slice (Some 0) 1 1); Clause "b" (Slice (Some 1) 2 2)] in
  let h := [[VInt 1]; [VInt 2; VInt 3]] in
  Forall2 (λ r x, pts h (params r) x) (recQueries f) [[VInt 1]; [VInt 2; VInt 3]]
  ∧ ∃ t p h',
      With f h = Some ((t, p), h')
      ∧ t = "WITH RECURSIVE a,b"
      ∧ pts h' p [VInt 1; VInt 2; VInt 3].
Proof.
  intros f h.
  assert (Forall2 (λ r x, pts h (params r) x) (recQueries f)
            [[VInt 1]; [VInt 2; VInt 3]]) as Hrs.
  { repeat constructor; eexists; (split; [reflexivity|]); simpl; auto. }
  split; [exact Hrs|].
  destruct (With_joins_definitions f h _ Hrs) as (t & p & h' & E & _ & Ht & Hp & _).
  exists t, p, h'. split; [exact E|]. split; [|exact Hp].
  apply Ht. discriminate.
Defined.

Lemma addRecQry_captures_copy_witness :
  let whereParams := Slice (Some 0) 1 2 in
  let h := [[VInt 1; VNil]] in
  pts h whereParams [VInt 1]
  ∧ ∃ c h',
      addRecQry (sample_filter [] [] nested_on []) "RecQry0" "(SELECT 1)" whereParams h
        = Some (set_recQueries (sample_filter [] [] nested_on []) [c], h')
      ∧ pts h' (params c) [VInt 1]
      ∧ ∃ s'' h'',
          append growslice (reslice0 whereParams) [VInt 5; VInt 6] h' = Some (s'', h'')
          ∧ pts h'' s'' [VInt 5; VInt 6]
          ∧ pts h'' (params c) [VInt 1].
Proof.
  intros whereParams h.
  assert (pts h whereParams [VInt 1]) as Hp.
  { eexists. split; [reflexivity|]. simpl. auto. }
  split; [exact Hp|].
  destruct (addRecQry_captures_copy (sample_filter [] [] nested_on []) "RecQry0"
              "(SELECT 1)" whereParams [VInt 1] h Hp)
    as (c & h' & E & Hc & _ & _ & _ & _ & Happ).
  exists c, h'. split; [exact E|]. split; [exact Hc|]. apply Happ.
Defined.

Lemma legacy_admin_unfiltered_witness :
  OrgRole (sample_legacy "Admin") = RoleAdmin
  ∧ DashboardPermissionFilter_Where (sample_legacy "Admin") [] = Some (("", nil_slice), []).
Proof.
  split; [reflexivity|]. apply (legacy_admin_unfiltered (sample_legacy "Admin") []).
  reflexivity.
Defined.

Lemma nil_user_or_permissions_denies_all_witness :
  ((None : option SignedInUser) = None
   ∨ ∃ u : SignedInUser, None = Some u ∧ Permissions u = None)
  ∧ ∃ f', NewAccessControlDashboardPermissionFilter None 2 "dash-folder" nested_off []
          = Some (f', [])
          ∧ Where f' = ("(1 = 0)", nil_slice).
Proof.
  split; [by left|].
  apply (nil_user_or_permissions_denies_all (sample_filter [] [] nested_off []) None 2
           "dash-folder" nested_off []).
  by left.
Defined.

Lemma unknown_query_type_is_mixed_witness :
  "reports" ≠ TypeFolder ∧ "reports" ≠ TypeDashboard ∧ "reports" ≠ TypeAlertFolder
  ∧ ∃ f h', NewAccessControlDashboardPermissionFilter (Some sample_user) 2 "reports"
              nested_off [] = Some (f, h')
            ∧ folderActions f = ["folders:read"; "dashboards:create"]
            ∧ dashboardActions f = ["dashboards:read"; "dashboards:write"].
Proof.
  assert ("reports" ≠ TypeFolder ∧ "reports" ≠ TypeDashboard
          ∧ "reports" ≠ TypeAlertFolder) as (H1 & H2 & H3) by (repeat split; discriminate).
  do 3 (split; [assumption|]).
  apply (unknown_query_type_is_mixed (Some sample_user) 2 "reports" "reports"
           nested_off [] H1 H2 H3).
Defined.

(** At the concrete configuration the scratch slice of [buildClauses] is
    reused: the array of the first recursive definition and the array that
    the folder branch has overwritten differ. *)
Example scratch_buffer_reused :
  ∃ f h c1 c2 l1 l2,
    NewAccessControlDashboardPermissionFilter (Some sample_user) 2 "reports"
      nested_on [] = Some (f, h)
    ∧ recQueries f = [c1; c2]
    ∧ arr (params c1) = Some l1 ∧ arr (params c2) = Some l2
    ∧ h !! l1 = Some [VInt64 1; VInt64 7; VString "dashboards:read";
                      VString "dashboards:write"; VInt 2]
    ∧ h !! 5 = Some [VInt64 1; VInt64 7; VString "dashboards:create";
                      VString "dashboards:write"; VInt 2; VNil; VNil; VNil].
Proof. vm_compute. do 6 eexists. repeat split; reflexivity. Qed.

(** A folder query at View level by a user whose folder grant is a
    wildcard: the predicate is the folder tag alone. *)
Example covered_folder_query :
  ∃ f, NewAccessControlDashboardPermissionFilter (Some sample_user) 1 "dash-folder"
         nested_on [] = Some (f, [])
       ∧ Where f = ("(dashboard.is_folder)", nil_slice)
       ∧ With f [] = Some (("", nil_slice), []).
Proof. vm_compute. eexists. repeat split; reflexivity. Qed.

(** * Further properties *)

(** ** The wildcard resolver *)

Section ResolverMore.
Context `{Imports}.

Lemma filter_sublist_impl {A} (P Q : A → Prop) `{!∀ x, Decision (P x)}
    `{!∀ x, Decision (Q x)} (l : list A) :
  (∀ x, P x → Q x) → filter P l `sublist_of` filter Q l.
Proof.
  intros HPQ. induction l as [|x l IH]; [constructor|].
  rewrite !filter_cons. destruct (decide (P x)) as [HP|HP].
  - rewrite decide_True by auto. by constructor.
  - case_decide; [by apply sublist_cons | done].
Qed.

Lemma covered_mono permissions (ws ws' : list Wildcards) a :
  (∀ w, w ∈ ws → w ∈ ws') →
  covered permissions ws a → covered permissions ws' a.
Proof.
  intros Hsub. unfold covered. rewrite !Exists_exists.
  intros (scope & Hs & Hw). exists scope. split; [done|].
  apply Exists_exists in Hw as (w & Hw & Hc). apply Exists_exists. eauto.
Qed.

(** X1: when no wildcard is supplied, or no action has a granted scope (a
    nil map, an empty map, missing keys), every action needs an explicit
    check: the result is the input, in order. *)
Theorem actionsToCheck_all_when_nothing_covers (actions : list string)
    (permissions : option (gmap string (list string)))
    (wildcards : list Wildcards) :
  wildcards = [] ∨ Forall (λ a, map_index [] permissions a = []) actions →
  actionsToCheck actions permissions wildcards = VString <$> actions.
Proof.
  intros Hno. rewrite actionsToCheck_filter. f_equal.
  induction actions as [|a rest IH]; [done|].
  rewrite filter_cons, decide_True.
  - f_equal. apply IH. destruct Hno as [->|Hall]; [by left|].
    right. by inversion Hall.
  - unfold covered. destruct Hno as [->|Hall].
    + rewrite Exists_exists. intros (scope & _ & Hw). by inversion Hw.
    + inversion Hall as [|? ? Ha _]; subst. rewrite Ha. by inversion 1.
Qed.

(** X2: the resolver decides each action on its own: the result for a
    concatenation is the concatenation of the results, and the result is
    never longer than the input. *)
Theorem actionsToCheck_app (actions1 actions2 : list string)
    (permissions : option (gmap string (list string)))
    (wildcards : list Wildcards) :
  actionsToCheck (actions1 ++ actions2) permissions wildcards
  = actionsToCheck actions1 permissions wildcards
    ++ actionsToCheck actions2 permissions wildcards
  ∧ length (actionsToCheck actions1 permissions wildcards) ≤ length actions1.
Proof.
  rewrite !actionsToCheck_filter. split.
  - by rewrite filter_app, fmap_app.
  - rewrite length_fmap. apply length_filter.
Qed.

(** X3: supplying more wildcards can only remove actions from the result:
    the result for the larger list of wildcards is a sublist of the result
    for the smaller one. *)
Theorem actionsToCheck_antitone (actions : list string)
    (permissions : option (gmap string (list string)))
    (wildcards wildcards' : list Wildcards) :
  (∀ w, w ∈ wildcards → w ∈ wildcards') →
  actionsToCheck actions permissions wildcards'
  `sublist_of` actionsToCheck actions permissions wildcards.
Proof.
  intros Hsub. rewrite !actionsToCheck_filter. apply fmap_sublist.
  apply filter_sublist_impl. intros a Hn Hc. apply Hn.
  by eapply covered_mono.
Qed.

End ResolverMore.

(** ** The constructor, [With] and the store *)

Section ConstructorMore.
Context `{Imports}.

Lemma wp_run {A} (m : M A) h Q a h' : wp m h Q → m h = Some (a, h') → Q a h'.
Proof. intros (a0 & h0 & Hm & HQ) E. congruence. Qed.

(** The constructor runs [buildClauses] on action sets that depend on the
    level and the query type only, and are not both empty. *)
Lemma New_build permissionLevel queryType :
  ∃ fa da, (fa ≠ [] ∨ da ≠ [])
    ∧ ∀ user_ features,
        NewAccessControlDashboardPermissionFilter user_ permissionLevel queryType features
        = buildClauses (Filter user_ da fa features (Clause "" nil_slice) []).
Proof.
  unfold NewAccessControlDashboardPermissionFilter.
  repeat case_decide; destruct (bool_decide _); simpl; eexists _, _;
    (split; [|intros; reflexivity]);
    first [left; discriminate | right; discriminate].
Qed.

Lemma compiled_recQueries_length f u F f' h' :
  recQueries f = [] → compiled f u F f' h' →
  length (recQueries f')
  = recCount (IsEnabled (features f) FlagNestedFolders) (dashboardToCheck f u)
    + recCount (IsEnabled (features f) FlagNestedFolders) (folderToCheck f u).
Proof.
  intros E0 (cs1 & cs2 & -> & Hl1 & Hl2 & _). simpl.
  rewrite E0, app_nil_l, length_app. lia.
Qed.

Lemma recCount_le nested toCheck : recCount nested toCheck ≤ 1.
Proof. unfold recCount. destruct toCheck, nested; lia. Qed.

Lemma recCount_off toCheck : recCount false toCheck = 0.
Proof. by destruct toCheck. Qed.

(** X4: the action sets that the constructor derives for the folder, the
    dashboard and the alert-folder query types, given that the three type
    names differ: read actions, and one more action when the level exceeds
    View; the other kind of artifact gets no action. *)
Theorem recognised_query_type_actions (user_ : option SignedInUser)
    (permissionLevel : Z) (features : FeatureToggles) (h : heap) :
  TypeDashboard ≠ TypeFolder → TypeAlertFolder ≠ TypeFolder →
  TypeAlertFolder ≠ TypeDashboard →
  let needEdit := bool_decide (PERMISSION_VIEW < permissionLevel)%Z in
  (∃ f h', NewAccessControlDashboardPermissionFilter user_ permissionLevel
             TypeFolder features h = Some (f, h')
           ∧ folderActions f = ActionFoldersRead
               :: (if needEdit then [ActionDashboardsCreate] else [])
           ∧ dashboardActions f = [])
  ∧ (∃ f h', NewAccessControlDashboardPermissionFilter user_ permissionLevel
               TypeDashboard features h = Some (f, h')
             ∧ folderActions f = []
             ∧ dashboardActions f = ActionDashboardsRead
                 :: (if needEdit then [ActionDashboardsWrite] else []))
  ∧ (∃ f h', NewAccessControlDashboardPermissionFilter user_ permissionLevel
               TypeAlertFolder features h = Some (f, h')
             ∧ folderActions f = ActionFoldersRead :: ActionAlertingRuleRead
                 :: (if needEdit then [ActionAlertingRuleCreate] else [])
             ∧ dashboardActions f = []).
Proof.
  intros H1 H2 H3 needEdit. subst needEdit.
  unfold NewAccessControlDashboardPermissionFilter.
  rewrite (decide_True (P := TypeFolder = TypeFolder)) by done.
  rewrite (decide_False (P := TypeDashboard = TypeFolder)) by done.
  rewrite (decide_True (P := TypeDashboard = TypeDashboard)) by done.
  rewrite (decide_False (P := TypeAlertFolder = TypeFolder)) by done.
  rewrite (decide_False (P := TypeAlertFolder = TypeDashboard)) by done.
  rewrite (decide_True (P := TypeAlertFolder = TypeAlertFolder)) by done.
  destruct (bool_decide (PERMISSION_VIEW < permissionLevel)%Z); simpl.
  all: repeat split.
  all: match goal with
       | |- ∃ f h', buildClauses ?f0 _ = _ ∧ _ =>
           destruct (buildClauses_total f0 h [] (owns_nil h)) as (f & h' & E & Hpost);
           exists f, h'; split; [exact E|]; simpl in Hpost
       end.
  all: destruct user_ as [u|];
    [destruct (isnil (map_index None (Permissions u) (OrgID u)));
     [by destruct Hpost as [-> _]
     |by apply compiled_actions in Hpost as (_ & -> & -> & _)]
    |by destruct Hpost as [-> _]].
Qed.

(** X5: the constructor creates at most two recursive definitions (the
    capacity [maximumRecursiveQueries]), and none when nested folders are
    disabled: [With] then returns the empty text and the nil slice and
    leaves the store as it is. *)
Theorem at_most_two_recursive_queries (user_ : option SignedInUser)
    (permissionLevel : Z) (queryType : string) (features : FeatureToggles)
    (h : heap) :
  ∃ f h1,
    NewAccessControlDashboardPermissionFilter user_ permissionLevel queryType
      features h = Some (f, h1)
    ∧ length (recQueries f) ≤ 2
    ∧ (IsEnabled features FlagNestedFolders = false →
       recQueries f = [] ∧ With f h1 = Some (("", nil_slice), h1)).
Proof.
  destruct (New_build permissionLevel queryType) as (fa & da & _ & ->).
  set (f0 := Filter user_ da fa features (Clause "" nil_slice) []).
  destruct (buildClauses_total f0 h [] (owns_nil h)) as (f & h1 & E & Hpost).
  exists f, h1. split; [done|].
  assert (length (recQueries f) ≤ 2
          ∧ (IsEnabled features FlagNestedFolders = false → recQueries f = []))
    as [Hle Hoff].
  { assert (f = set_where f0 (Clause "(1 = 0)" nil_slice) ∧ h1 = h →
            length (recQueries f) ≤ 2
            ∧ (IsEnabled features FlagNestedFolders = false → recQueries f = []))
      as Hdeny by (intros [-> _]; simpl; split; [lia|done]).
    simpl in Hpost. destruct user_ as [u|]; [|by apply Hdeny].
    destruct (isnil (map_index None (Permissions u) (OrgID u))); [by apply Hdeny|].
    pose proof (compiled_recQueries_length f0 u [] f h1 eq_refl Hpost) as Hlen.
    simpl in Hlen. split.
    - pose proof (recCount_le (IsEnabled features FlagNestedFolders)
                    (dashboardToCheck f0 u)).
      pose proof (recCount_le (IsEnabled features FlagNestedFolders)
                    (folderToCheck f0 u)). lia.
    - intros Hf. rewrite Hf, !recCount_off in Hlen.
      by apply length_zero_iff_nil. }
  split; [done|]. intros Hf. specialize (Hoff Hf). split; [done|].
  unfold With. by rewrite Hoff.
Qed.

End ConstructorMore.

Section BoundParamsFacts.
Context `{Imports}.

Lemma bound_params_fields f f0 u :
  user f = user f0 → dashboardActions f = dashboardActions f0 →
  folderActions f = folderActions f0 → features f = features f0 →
  predicateParams f u = predicateParams f0 u
  ∧ preambleParams f u = preambleParams f0 u.
Proof.
  intros E1 E2 E3 E4.
  unfold predicateParams, preambleParams, subqueryParams, dashboardToCheck,
    folderToCheck.
  by rewrite E1, E2, E3, E4.
Qed.

(** What [buildClauses] and then [With] leave in the store, for a filter
    without earlier recursive definitions. *)
Lemma built_contents f0 u h F :
  user f0 = Some u → map_index None (Permissions u) (OrgID u) ≠ None →
  recQueries f0 = [] → owns h F →
  ∃ f h1 wt wp_ h2,
    buildClauses f0 h = Some (f, h1)
    ∧ With f h1 = Some ((wt, wp_), h2)
    ∧ user f = user f0 ∧ dashboardActions f = dashboardActions f0
    ∧ folderActions f = folderActions f0 ∧ features f = features f0
    ∧ pts h2 wp_ (preambleParams f0 u)
    ∧ pts h2 (Where f).2 (predicateParams f0 u)
    ∧ owns h1 ((params (where_ f), predicateParams f0 u)
               :: zip (params <$> recQueries f)
                    (replicate (recCount (IsEnabled (features f0) FlagNestedFolders)
                                  (dashboardToCheck f0 u))
                       (subqueryParams f0 u (dashboardToCheck f0 u))
                     ++ replicate (recCount (IsEnabled (features f0) FlagNestedFolders)
                                     (folderToCheck f0 u))
                          (subqueryParams f0 u (folderToCheck f0 u)))
               ++ F)
    ∧ (∀ t zs, pts h1 t zs → pts h2 t zs)
    ∧ length (recQueries f)
      = recCount (IsEnabled (features f0) FlagNestedFolders) (dashboardToCheck f0 u)
        + recCount (IsEnabled (features f0) FlagNestedFolders) (folderToCheck f0 u)
    ∧ wt = with_text (text <$> recQueries f).
Proof.
  intros Hu Hperm Hq Hown.
  destruct (buildClauses_spec f0 u h F Hu Hperm Hown) as (f & h1 & E & Hc).
  pose proof (compiled_actions _ _ _ _ _ Hc) as (Ea & Eb & Ec & Ed).
  destruct Hc as (cs1 & cs2 & Ef & Hl1 & Hl2 & _ & _ & Hown1 & _).
  fold (subqueryParams f0 u (dashboardToCheck f0 u)) in Hown1.
  fold (subqueryParams f0 u (folderToCheck f0 u)) in Hown1.
  fold (predicateParams f0 u) in Hown1.
  set (sub1 := subqueryParams f0 u (dashboardToCheck f0 u)) in *.
  set (sub2 := subqueryParams f0 u (folderToCheck f0 u)) in *.
  assert (recQueries f = cs1 ++ cs2) as Hrq by (rewrite Ef; simpl; by rewrite Hq).
  assert (Forall2 (λ r x, pts h1 (params r) x) (recQueries f)
            (replicate (length cs1) sub1 ++ replicate (length cs2) sub2)) as Hrs.
  { rewrite Hrq. apply Forall2_app.
    - eapply Forall2_owned_replicate; [exact Hown1|].
      apply Forall_forall. intros c Hc. right. apply elem_of_app. left.
      by apply (list_elem_of_fmap_2 (λ c0, (params c0, sub1))).
    - eapply Forall2_owned_replicate; [exact Hown1|].
      apply Forall_forall. intros c Hc. right.
      apply elem_of_app. right. apply elem_of_app. left.
      by apply (list_elem_of_fmap_2 (λ c0, (params c0, sub2))). }
  destruct (With_spec f h1 _ Hrs) as ([wt p] & h2 & Ew & Ht & Hp & Hfr & _).
  simpl in Hp. rewrite concat_app, Hl1, Hl2 in Hp.
  exists f, h1, wt, p, h2. do 6 (split; [done|]).
  split; [exact Hp|]. split.
  { apply Hfr. by eapply owns_pts; [exact Hown1|left]. }
  split; [|split; [done | split; [by rewrite Hrq, length_app, Hl1, Hl2 | done]]].
  rewrite Hrq, fmap_app, <- Hl1, <- Hl2.
  rewrite zip_with_app by (by rewrite length_fmap, length_replicate).
  rewrite <- app_assoc.
  assert (∀ (cs : list clause) (sub : list value),
             zip (params <$> cs) (replicate (length cs) sub)
             = (λ c, (params c, sub)) <$> cs) as Hzip.
  { intros cs sub. induction cs as [|c cs IH]; [done|]. csimpl. by f_equal. }
  by rewrite !Hzip.
Qed.

Lemma omap_zip_fst {A B C} (g : A → option C) (l : list A) (k : list B) :
  length l = length k → omap (λ p, g p.1) (zip l k) = omap g l.
Proof.
  revert k. induction l as [|x l IH]; intros [|y k] Hlen; simpl in *; try done.
  rewrite IH by lia. done.
Qed.

Lemma concat_replicate_1 {A} (l : list A) : concat (replicate 1 l) = l.
Proof. simpl. by rewrite app_nil_r. Qed.

(** X6: for a user with a permission-index entry, the parameters that
    [With] returns are those of the subqueries moved into recursive
    definitions, dashboard branch first, and the parameters that [Where]
    returns are those of the subqueries written into the predicate,
    dashboard branch first; each subquery binds the parameters of the role
    resolver followed by those of its actions. *)
Theorem bound_parameters_in_order (u : SignedInUser) (permissionLevel : Z)
    (queryType : string) (features : FeatureToggles) (h : heap) :
  map_index None (Permissions u) (OrgID u) ≠ None →
  ∃ f h1 wt wp_ h2,
    NewAccessControlDashboardPermissionFilter (Some u) permissionLevel queryType
      features h = Some (f, h1)
    ∧ With f h1 = Some ((wt, wp_), h2)
    ∧ pts h2 wp_ (preambleParams f u)
    ∧ pts h2 (Where f).2 (predicateParams f u).
Proof.
  intros Hperm.
  destruct (New_build permissionLevel queryType) as (fa & da & _ & ->).
  set (f0 := Filter (Some u) da fa features (Clause "" nil_slice) []).
  destruct (built_contents f0 u h [] eq_refl Hperm eq_refl (owns_nil h))
    as (f & h1 & wt & p & h2 & E & Ew & E1 & E2 & E3 & E4 & Hp & Hw & _).
  destruct (bound_params_fields f f0 u E1 E2 E3 E4) as [Ea Eb].
  exists f, h1, wt, p, h2. by rewrite Ea, Eb.
Qed.

Lemma toggle_params f_on f_off u :
  user f_on = user f_off → dashboardActions f_on = dashboardActions f_off →
  folderActions f_on = folderActions f_off →
  IsEnabled (features f_on) FlagNestedFolders = true →
  IsEnabled (features f_off) FlagNestedFolders = false →
  preambleParams f_off u = []
  ∧ preambleParams f_on u ++ predicateParams f_on u ≡ₚ predicateParams f_off u
  ∧ (dashboardActions f_on = [] ∨ folderActions f_on = [] →
     preambleParams f_on u ++ predicateParams f_on u = predicateParams f_off u).
Proof.
  intros E1 E2 E3 Hon Hoff.
  unfold preambleParams, predicateParams, subqueryParams, dashboardToCheck,
    folderToCheck.
  rewrite Hon, Hoff, E1, E2, E3.
  set (ps := (UserRolesFilter (OrgID u) (UserID u) (Teams u)
                (GetOrgRoles (user f_off))).2).
  set (perms := map_index None (Permissions u) (OrgID u)).
  assert (dashboardActions f_off = [] →
          actionsToCheck (dashboardActions f_off) perms
            [WildcardsFromPrefix ScopeDashboardsPrefix;
             WildcardsFromPrefix ScopeFoldersPrefix] = []) as Hd by (by intros ->).
  assert (folderActions f_off = [] →
          actionsToCheck (folderActions f_off) perms
            [WildcardsFromPrefix ScopeFoldersPrefix] = []) as Hf by (by intros ->).
  destruct (actionsToCheck (dashboardActions f_off) perms _) as [|a dtc];
    destruct (actionsToCheck (folderActions f_off) perms _) as [|b ftc];
    simpl; rewrite ?app_nil_r; (split; [done|]).
  - done.
  - done.
  - done.
  - split.
    + generalize (ps ++ actionParams (a :: dtc)) (ps ++ actionParams (b :: ftc)).
      intros s1 s2. rewrite <- !app_assoc.
      apply Permutation_app_head, Permutation_app_comm.
    + intros [Ed|Ef]; [by specialize (Hd Ed) | by specialize (Hf Ef)].
Qed.

(** X7: the nested-folder flag moves subqueries between the predicate and
    the preamble without changing what is bound.  With the flag off the
    preamble binds nothing; the preamble parameters followed by the
    predicate parameters with the flag on are a permutation of the
    predicate parameters with the flag off, and the same list when one of
    the two action sets is empty. *)
Theorem nested_flag_keeps_bound_parameters (u : SignedInUser)
    (permissionLevel : Z) (queryType : string) (on off : FeatureToggles)
    (h h' : heap) :
  map_index None (Permissions u) (OrgID u) ≠ None →
  IsEnabled on FlagNestedFolders = true →
  IsEnabled off FlagNestedFolders = false →
  ∃ f1 h1 wt1 wp1 h2 f2 h1' wt2 wp2 h2' P1 W1 W2,
    NewAccessControlDashboardPermissionFilter (Some u) permissionLevel queryType
      on h = Some (f1, h1)
    ∧ With f1 h1 = Some ((wt1, wp1), h2)
    ∧ NewAccessControlDashboardPermissionFilter (Some u) permissionLevel queryType
        off h' = Some (f2, h1')
    ∧ With f2 h1' = Some ((wt2, wp2), h2')
    ∧ pts h2 wp1 P1 ∧ pts h2 (Where f1).2 W1
    ∧ pts h2' wp2 [] ∧ pts h2' (Where f2).2 W2
    ∧ P1 ++ W1 ≡ₚ W2
    ∧ (dashboardActions f1 = [] ∨ folderActions f1 = [] → P1 ++ W1 = W2).
Proof.
  intros Hperm Hon Hoff.
  destruct (New_build permissionLevel queryType) as (fa & da & _ & HN).
  rewrite !HN.
  set (f_on := Filter (Some u) da fa on (Clause "" nil_slice) []).
  set (f_off := Filter (Some u) da fa off (Clause "" nil_slice) []).
  destruct (built_contents f_on u h [] eq_refl Hperm eq_refl (owns_nil h))
    as (f1 & h1 & wt1 & p1 & h2 & E1 & Ew1 & _ & Ed1 & Ef1 & _ & Hp1 & Hw1 & _).
  destruct (built_contents f_off u h' [] eq_refl Hperm eq_refl (owns_nil h'))
    as (f2 & h1' & wt2 & p2 & h2' & E2 & Ew2 & _ & _ & _ & _ & Hp2 & Hw2 & _).
  destruct (toggle_params f_on f_off u eq_refl eq_refl eq_refl Hon Hoff)
    as (Hnil & Hperm' & Heq).
  rewrite Hnil in Hp2.
  exists f1, h1, wt1, p1, h2, f2, h1', wt2, p2, h2'.
  exists (preambleParams f_on u), (predicateParams f_on u), (predicateParams f_off u).
  do 8 (split; [done|]). split; [done|].
  rewrite Ed1, Ef1. exact Heq.
Qed.

(** X8: the constructor writes into arrays of its own only.  Every slice of
    the store it starts from keeps its contents; the arrays of the
    parameters of [Where] and of the recursive definitions are pairwise
    distinct and none of them is an array of the initial store. *)
Theorem constructor_output_arrays (user_ : option SignedInUser)
    (permissionLevel : Z) (queryType : string) (features : FeatureToggles)
    (h : heap) :
  ∃ f h1,
    NewAccessControlDashboardPermissionFilter user_ permissionLevel queryType
      features h = Some (f, h1)
    ∧ (∀ t zs, pts h t zs → pts h1 t zs)
    ∧ NoDup (omap arr (params (where_ f) :: (params <$> recQueries f)))
    ∧ (∀ l, l ∈ omap arr (params (where_ f) :: (params <$> recQueries f)) →
            length h ≤ l).
Proof.
  destruct (New_build permissionLevel queryType) as (fa & da & _ & ->).
  set (f0 := Filter user_ da fa features (Clause "" nil_slice) []).
  assert (∀ u, user_ = Some u → map_index None (Permissions u) (OrgID u) ≠ None →
          ∃ f h1, buildClauses f0 h = Some (f, h1)
            ∧ ∀ F, owns h F →
                ∃ xss, length (params <$> recQueries f) = length xss
                  ∧ ∃ W, owns h1 ((params (where_ f), W)
                                  :: zip (params <$> recQueries f) xss ++ F))
    as Hgrant.
  { intros u -> Hperm.
    destruct (built_contents f0 u h [] eq_refl Hperm eq_refl (owns_nil h))
      as (f & h1 & _ & _ & _ & E & _).
    exists f, h1. split; [done|]. intros F HF.
    destruct (built_contents f0 u h F eq_refl Hperm eq_refl HF)
      as (f' & h1' & _ & _ & _ & E' & _ & _ & _ & _ & _ & _ & _ & Hown & _ & Hlen & _).
    rewrite E in E'. injection E' as <- <-.
    eexists. split; [|eexists; exact Hown].
    by rewrite length_fmap, length_app, !length_replicate. }
  assert (buildClauses f0 h = Some (set_where f0 (Clause "(1 = 0)" nil_slice), h) →
          ∃ f h1, buildClauses f0 h = Some (f, h1)
            ∧ (∀ t zs, pts h t zs → pts h1 t zs)
            ∧ NoDup (omap arr (params (where_ f) :: (params <$> recQueries f)))
            ∧ (∀ l, l ∈ omap arr (params (where_ f) :: (params <$> recQueries f)) →
                    length h ≤ l)) as Hdeny.
  { intros E. eexists _, _. split; [exact E|]. simpl.
    split; [done|]. split; [apply NoDup_nil_2|]. by intros l ?%elem_of_nil. }
  destruct user_ as [u|]; [|by apply Hdeny, buildClauses_nothing].
  destruct (map_index None (Permissions u) (OrgID u)) as [m|] eqn:Hm;
    [|by apply Hdeny, buildClauses_nothing].
  destruct (Hgrant u eq_refl) as (f & h1 & E & Hall); [by rewrite Hm|].
  exists f, h1. split; [done|].
  assert (∀ F, owns h F →
             NoDup (omap arr (params (where_ f) :: (params <$> recQueries f))
                    ++ omap (λ p, arr p.1) F)
             ∧ Forall (λ p, pts h1 p.1 p.2) F) as Hsep.
  { intros F HF. destruct (Hall F HF) as (xss & Hlen & W & [Hpts Hnd]).
    split.
    - rewrite app_comm_cons, omap_app in Hnd.
      replace (omap (λ p, arr p.1) ((params (where_ f), W)
                                     :: zip (params <$> recQueries f) xss))
        with (omap arr (params (where_ f) :: (params <$> recQueries f))) in Hnd;
        [done|].
      simpl. rewrite (omap_zip_fst arr) by done. done.
    - inversion Hpts as [|? ? _ Hrest]; subst.
      by apply Forall_app in Hrest as [_ ?]. }
  split; [|split].
  - intros t zs Ht. destruct (Hsep [(t, zs)] (owns_one _ _ _ Ht)) as [_ Hf].
    by inversion Hf.
  - destruct (Hsep [] (owns_nil h)) as [Hnd _]. by rewrite app_nil_r in Hnd.
  - intros l Hl. destruct (decide (length h ≤ l)) as [|Hlt]; [done|].
    destruct (lookup_lt_is_Some_2 h l) as [a Ha]; [lia|].
    assert (pts h (Slice (Some l) 0 (length a)) []) as Ht.
    { exists a. simpl. repeat split; [done | lia]. }
    destruct (Hsep [(Slice (Some l) 0 (length a), [])] (owns_one _ _ _ Ht))
      as [Hnd _].
    apply NoDup_app in Hnd as (_ & Hdis & _). exfalso.
    apply (Hdis l Hl). simpl. by left.
Qed.

(** X9: [With] can be called again.  The second call returns the same text
    and a slice with the same parameters, and the slice that the first call
    returned still holds them. *)
Theorem With_twice (f : accessControlDashboardPermissionFilter) (h : heap)
    (xss : list (list value)) :
  Forall2 (λ r x, pts h (params r) x) (recQueries f) xss →
  ∃ t p h' p' h'',
    With f h = Some ((t, p), h')
    ∧ With f h' = Some ((t, p'), h'')
    ∧ pts h'' p (concat xss)
    ∧ pts h'' p' (concat xss).
Proof.
  intros Hrs.
  destruct (With_spec f h xss Hrs) as ([t p] & h' & E & Ht & Hp & Hfr & _).
  assert (Forall2 (λ r x, pts h' (params r) x) (recQueries f) xss) as Hrs'.
  { eapply Forall2_impl; [exact Hrs|]. intros r x. apply Hfr. }
  destruct (With_spec f h' xss Hrs') as ([t' p'] & h'' & E' & Ht' & Hp' & Hfr' & _).
  simpl in *. exists t, p, h', p', h''. split; [done|].
  split; [by rewrite E', Ht', Ht|]. split; [by apply Hfr'|done].
Qed.

End BoundParamsFacts.

(** ** The texts *)

Lemma string_app_nil_l_eq (a : string) : "" +:+ a = a.
Proof. reflexivity. Qed.

Lemma string_length_app (a b : string) :
  String.length (a +:+ b) = String.length a + String.length b.
Proof.
  induction a as [|x a IH]; [done|]. rewrite string_app_cons. simpl. lia.
Qed.

Section Texts.
Context `{Imports}.

(** [addRecQry] adds one definition, whose text starts with the name and
    depends on the name and the selector only. *)
Lemma addRecQry_inv f queryName whereUIDSelect whereParams h f' h' :
  addRecQry f queryName whereUIDSelect whereParams h = Some (f', h') →
  ∃ c rest, f' = set_recQueries f (recQueries f ++ [c])
    ∧ text c = queryName +:+ " AS (" +:+ rest
    ∧ ∀ g wp2 h2 g' h2',
        addRecQry g queryName whereUIDSelect wp2 h2 = Some (g', h2') →
        ∃ c', g' = set_recQueries g (recQueries g ++ [c']) ∧ text c' = text c.
Proof.
  unfold addRecQry, bind, ret. intros E.
  destruct (make (len whereParams) h) as [[c0 h0]|]; [|done].
  destruct (copy c0 whereParams h0) as [[n h1]|]; [|done].
  injection E as <- <-. eexists _, _. split; [done|]. split; [reflexivity|].
  intros g wp2 h2 g' h2' E2.
  destruct (make (len wp2) h2) as [[c2 h3]|]; [|done].
  destruct (copy c2 wp2 h3) as [[n2 h4]|]; [|done].
  injection E2 as <- <-. eexists. split; [done|]. reflexivity.
Qed.

Lemma text_shape_skip actions f l b :
  (0 < length actions → 0 < String.length b) →
  text_shape actions f l f
    (Locals (args l) (builder l +:+ b) (permSelector l) (permSelectorArgs l)).
Proof.
  intros Hb. exists b, []. simpl. rewrite app_nil_r.
  split; [done|]. split; [apply set_recQueries_id|]. split; [done|].
  split; [lia | constructor].
Qed.

Ltac shape_rest :=
  split;
  [first [reflexivity
         | apply (eq_trans (set_recQueries_id _)); f_equal; symmetry; apply app_nil_r]
  |split;
   [intros _; rewrite string_length_app; simpl; lia
   |split;
    [simpl; lia
    |repeat constructor;
     try match goal with
         | Hc : text ?c = _ |- ∃ rest, text ?c = _ =>
             eexists; rewrite Hc, string_app_assoc; reflexivity
         end]]].

Lemma dashboardBranch_shape u rolesFilter ps dw fw f l h f1 l1 h1 :
  dashboardBranch u rolesFilter ps dw fw f l h = Some ((f1, l1), h1) →
  text_shape (dashboardActions f) f l f1 l1.
Proof.
  unfold dashboardBranch. intros E.
  case_decide as Hd.
  2:{ injection E as <- <- <-. exists "", []. rewrite string_app_nil_r, app_nil_r.
      split; [done|]. split; [apply set_recQueries_id|]. split; [lia|].
      split; [simpl; lia | constructor]. }
  case_decide as Hk.
  2:{ injection E as <- <- <-. apply text_shape_skip. simpl. lia. }
  unfold bind, ret in E.
  repeat (case_match; simplify_eq; try discriminate).
  all: try match goal with
         | Ha : addRecQry _ _ _ _ _ = Some _ |- _ =>
             apply addRecQry_inv in Ha as (c & rest & -> & Hc & _)
         end.
  all: simpl.
  all: eexists _, _; (split; [rewrite !string_app_assoc; reflexivity|]).
  all: shape_rest.
Qed.

Lemma folderBranch_shape u rolesFilter ps fw f l h f1 l1 h1 :
  folderBranch u rolesFilter ps fw f l h = Some ((f1, l1), h1) →
  text_shape (folderActions f) f l f1 l1.
Proof.
  unfold folderBranch. intros E.
  case_decide as Hd.
  2:{ injection E as <- <- <-. exists "", []. rewrite string_app_nil_r, app_nil_r.
      split; [done|]. split; [apply set_recQueries_id|]. split; [lia|].
      split; [simpl; lia | constructor]. }
  case_decide as Hk.
  2:{ injection E as <- <- <-. case_decide.
      - exists (" OR " +:+ "dashboard.is_folder"), []. simpl.
        rewrite app_nil_r, !string_app_assoc.
        split; [done|]. split; [apply set_recQueries_id|].
        split; [simpl; lia|]. split; [lia | constructor].
      - apply text_shape_skip. simpl. lia. }
  unfold bind, ret in E.
  repeat (case_match; simplify_eq; try discriminate).
  all: try match goal with
         | Ha : addRecQry _ _ _ _ _ = Some _ |- _ =>
             apply addRecQry_inv in Ha as (c & rest & -> & Hc & _)
         end.
  all: simpl.
  all: eexists _, _; (split; [rewrite !string_app_assoc; reflexivity|]).
  all: shape_rest.
Qed.

Ltac text_rel_paths :=
  unfold bind, ret in *;
  repeat (case_match; simplify_eq; try discriminate; try lia; try tauto);
  repeat match goal with
    | Ha : addRecQry _ ?n ?s _ _ = Some _, Hb : addRecQry _ ?n ?s _ _ = Some _ |- _ =>
        let c := fresh "c" in
        let Hrel := fresh "Hrel" in
        destruct (addRecQry_inv _ _ _ _ _ _ _ Ha) as (c & ? & -> & _ & Hrel);
        destruct (Hrel _ _ _ _ _ Hb) as (? & -> & ?);
        clear Ha Hb Hrel
    end;
  simpl; rewrite ?fmap_app; simpl; split; congruence.

(** Two runs of the dashboard branch that agree on the texts they start
    from, on the role filter, on whether there are actions, on the number
    of actions to check and on the flag end with the same texts. *)
Lemma dashboardBranch_text_rel u u' rolesFilter ps ps' dw dw' fw fw' f f' l l'
    h h' f1 l1 h1 f1' l1' h1' :
  dashboardBranch u rolesFilter ps dw fw f l h = Some ((f1, l1), h1) →
  dashboardBranch u' rolesFilter ps' dw' fw' f' l' h' = Some ((f1', l1'), h1') →
  builder l = builder l' → permSelector l = permSelector l' →
  (0 < length (dashboardActions f) ↔ 0 < length (dashboardActions f')) →
  length (actionsToCheck (dashboardActions f)
            (map_index None (Permissions u) (OrgID u)) [dw; fw])
  = length (actionsToCheck (dashboardActions f')
              (map_index None (Permissions u') (OrgID u')) [dw'; fw']) →
  IsEnabled (features f) FlagNestedFolders = IsEnabled (features f') FlagNestedFolders →
  text <$> recQueries f = text <$> recQueries f' →
  builder l1 = builder l1' ∧ text <$> recQueries f1 = text <$> recQueries f1'.
Proof.
  intros E E' Hb Hs Hd Hk Hn Hr.
  assert (length (recQueries f) = length (recQueries f')) as Hlen.
  { apply (f_equal length) in Hr. by rewrite !length_fmap in Hr. }
  unfold dashboardBranch in E, E'.
  rewrite <- Hk, <- Hn, <- Hb, <- Hs, <- Hlen in E'.
  text_rel_paths.
Qed.

Lemma folderBranch_text_rel u u' rolesFilter ps ps' fw fw' f f' l l'
    h h' f1 l1 h1 f1' l1' h1' :
  folderBranch u rolesFilter ps fw f l h = Some ((f1, l1), h1) →
  folderBranch u' rolesFilter ps' fw' f' l' h' = Some ((f1', l1'), h1') →
  builder l = builder l' → permSelector l = permSelector l' →
  (0 < length (dashboardActions f) ↔ 0 < length (dashboardActions f')) →
  (0 < length (folderActions f) ↔ 0 < length (folderActions f')) →
  length (actionsToCheck (folderActions f)
            (map_index None (Permissions u) (OrgID u)) [fw])
  = length (actionsToCheck (folderActions f')
              (map_index None (Permissions u') (OrgID u')) [fw']) →
  IsEnabled (features f) FlagNestedFolders = IsEnabled (features f') FlagNestedFolders →
  text <$> recQueries f = text <$> recQueries f' →
  builder l1 = builder l1' ∧ text <$> recQueries f1 = text <$> recQueries f1'.
Proof.
  intros E E' Hb Hs Hdd Hd Hk Hn Hr.
  assert (length (recQueries f) = length (recQueries f')) as Hlen.
  { apply (f_equal length) in Hr. by rewrite !length_fmap in Hr. }
  unfold folderBranch in E, E'.
  rewrite <- Hk, <- Hn, <- Hb, <- Hs, <- Hlen in E'.
  text_rel_paths.
Qed.

(** The two branches in sequence, as [buildClauses] runs them for a user
    with a permission-index entry. *)
Lemma buildClauses_inv f u h f1 h1 :
  user f = Some u → map_index None (Permissions u) (OrgID u) ≠ None →
  buildClauses f h = Some (f1, h1) →
  ∃ fa la ha fb lb,
    let rf := UserRolesFilter (OrgID u) (UserID u) (Teams u) (GetOrgRoles (user f)) in
    let rolesFilter := " AND role_id IN(SELECT id FROM role " +:+ rf.1 +:+ ") " in
    dashboardBranch u rolesFilter rf.2 (WildcardsFromPrefix ScopeDashboardsPrefix)
      (WildcardsFromPrefix ScopeFoldersPrefix) f (Locals nil_slice "(" "" nil_slice) h
    = Some ((fa, la), ha)
    ∧ folderBranch u rolesFilter rf.2 (WildcardsFromPrefix ScopeFoldersPrefix) fa
        (Locals (args la) (builder la) "" (reslice0 (permSelectorArgs la))) ha
      = Some ((fb, lb), h1)
    ∧ f1 = set_where fb (Clause (builder lb +:+ ")") (args lb)).
Proof.
  intros Hu Hperm. unfold buildClauses, bind. rewrite nothingGranted_eq, Hu.
  destruct (map_index None (Permissions u) (OrgID u)) eqn:Hm; [|done]. simpl.
  rewrite <- Hu.
  destruct (UserRolesFilter (OrgID u) (UserID u) (Teams u) (GetOrgRoles (user f)))
    as [filter ps]. simpl.
  destruct (dashboardBranch _ _ _ _ _ _ _ _) as [[[fa la] ha]|] eqn:Ed; [|done].
  destruct (folderBranch _ _ _ _ _ _ _) as [[[fb lb] hb]|] eqn:Ef; [|done].
  unfold ret. intros [= <- <-]. by exists fa, la, ha, fb, lb.
Qed.

Lemma buildClauses_shape f u h f1 h1 :
  user f = Some u → map_index None (Permissions u) (OrgID u) ≠ None →
  buildClauses f h = Some (f1, h1) →
  ∃ s1 s2 cs1 cs2,
    text (where_ f1) = "(" +:+ s1 +:+ s2 +:+ ")"
    ∧ recQueries f1 = recQueries f ++ cs1 ++ cs2
    ∧ (0 < length (dashboardActions f) → 0 < String.length s1)
    ∧ (0 < length (folderActions f) → 0 < String.length s2)
    ∧ length cs1 ≤ 1 ∧ length cs2 ≤ 1
    ∧ Forall (λ c, ∃ rest, text c = "RecQry" +:+ Sprintf_d (length (recQueries f))
                                    +:+ " AS (" +:+ rest) cs1
    ∧ Forall (λ c, ∃ rest, text c = "RecQry"
                                    +:+ Sprintf_d (length (recQueries f) + length cs1)
                                    +:+ " AS (" +:+ rest) cs2.
Proof.
  intros Hu Hperm E.
  destruct (buildClauses_inv f u h f1 h1 Hu Hperm E)
    as (fa & la & ha & fb & lb & Ed & Ef & ->).
  apply dashboardBranch_shape in Ed as (s1 & cs1 & Hb1 & -> & Hs1 & Hl1 & Hn1).
  apply folderBranch_shape in Ef as (s2 & cs2 & Hb2 & -> & Hs2 & Hl2 & Hn2).
  simpl in *. exists s1, s2, cs1, cs2.
  split; [by rewrite Hb2, Hb1, !string_app_assoc|].
  split; [by rewrite <- app_assoc|].
  do 4 (split; [done|]). split; [done|].
  by rewrite length_app in Hn2.
Qed.

Lemma buildClauses_text_rel f f' u u' h h' f1 h1 f1' h1' :
  user f = Some u → map_index None (Permissions u) (OrgID u) ≠ None →
  user f' = Some u' → map_index None (Permissions u') (OrgID u') ≠ None →
  (UserRolesFilter (OrgID u) (UserID u) (Teams u) (GetOrgRoles (user f))).1
  = (UserRolesFilter (OrgID u') (UserID u') (Teams u') (GetOrgRoles (user f'))).1 →
  (0 < length (dashboardActions f) ↔ 0 < length (dashboardActions f')) →
  (0 < length (folderActions f) ↔ 0 < length (folderActions f')) →
  length (dashboardToCheck f u) = length (dashboardToCheck f' u') →
  length (folderToCheck f u) = length (folderToCheck f' u') →
  IsEnabled (features f) FlagNestedFolders = IsEnabled (features f') FlagNestedFolders →
  text <$> recQueries f = text <$> recQueries f' →
  buildClauses f h = Some (f1, h1) → buildClauses f' h' = Some (f1', h1') →
  text (where_ f1) = text (where_ f1')
  ∧ text <$> recQueries f1 = text <$> recQueries f1'.
Proof.
  intros Hu Hperm Hu' Hperm' Hrf Hd Hf Hkd Hkf Hn Hr E E'.
  destruct (buildClauses_inv f u h f1 h1 Hu Hperm E)
    as (fa & la & ha & fb & lb & Ed & Ef & ->).
  destruct (buildClauses_inv f' u' h' f1' h1' Hu' Hperm' E')
    as (fa' & la' & ha' & fb' & lb' & Ed' & Ef' & ->).
  simpl in Ed, Ef, Ed', Ef'. rewrite <- Hrf in Ed', Ef'.
  destruct (dashboardBranch_text_rel _ _ _ _ _ _ _ _ _ _ _ _ _ _ _ _ _ _ _ _ _
              Ed Ed' eq_refl eq_refl Hd Hkd Hn Hr) as [Hb Hr1].
  apply dashboardBranch_shape in Ed as (? & ? & _ & -> & _).
  apply dashboardBranch_shape in Ed' as (? & ? & _ & -> & _).
  destruct (folderBranch_text_rel _ _ _ _ _ _ _ _ _ _ _ _ _ _ _ _ _ _ _
              Ef Ef' Hb eq_refl Hd Hf Hkf Hn Hr1) as [Hb2 Hr2].
  simpl. by rewrite Hb2.
Qed.

(** X12: the texts carry no bound value.  For the same level and query
    type, two users with a permission-index entry whose role filters have
    the same text, under the same flag setting, get the same predicate and
    the same preamble whenever as many dashboard actions and as many folder
    actions need an explicit check: action names, scopes and identifiers
    reach the statement through the parameters only. *)
Theorem texts_carry_no_bound_value (u u' : SignedInUser) (permissionLevel : Z)
    (queryType : string) (features features' : FeatureToggles) (h h' : heap) :
  map_index None (Permissions u) (OrgID u) ≠ None →
  map_index None (Permissions u') (OrgID u') ≠ None →
  (UserRolesFilter (OrgID u) (UserID u) (Teams u) (GetOrgRoles (Some u))).1
  = (UserRolesFilter (OrgID u') (UserID u') (Teams u') (GetOrgRoles (Some u'))).1 →
  IsEnabled features FlagNestedFolders = IsEnabled features' FlagNestedFolders →
  ∃ f h1 wt wp_ h2 f' h1' wt' wp' h2',
    NewAccessControlDashboardPermissionFilter (Some u) permissionLevel queryType
      features h = Some (f, h1)
    ∧ With f h1 = Some ((wt, wp_), h2)
    ∧ NewAccessControlDashboardPermissionFilter (Some u') permissionLevel queryType
        features' h' = Some (f', h1')
    ∧ With f' h1' = Some ((wt', wp'), h2')
    ∧ (length (dashboardToCheck f u) = length (dashboardToCheck f' u') →
       length (folderToCheck f u) = length (folderToCheck f' u') →
       (Where f).1 = (Where f').1 ∧ wt = wt').
Proof.
  intros Hperm Hperm' Hrf Hn.
  destruct (New_build permissionLevel queryType) as (fa & da & _ & HN).
  rewrite !HN.
  set (f0 := Filter (Some u) da fa features (Clause "" nil_slice) []).
  set (f0' := Filter (Some u') da fa features' (Clause "" nil_slice) []).
  destruct (built_contents f0 u h [] eq_refl Hperm eq_refl (owns_nil h))
    as (f & h1 & wt & p & h2 & E & Ew & _ & Ed & Ef & _ & _ & _ & _ & _ & _ & Ht).
  destruct (built_contents f0' u' h' [] eq_refl Hperm' eq_refl (owns_nil h'))
    as (f' & h1' & wt' & p' & h2' & E' & Ew' & _ & Ed' & Ef' & _ & _ & _ & _ & _ & _ & Ht').
  exists f, h1, wt, p, h2, f', h1', wt', p', h2'. do 4 (split; [done|]).
  unfold dashboardToCheck, folderToCheck. rewrite Ed, Ef, Ed', Ef'.
  intros Hkd Hkf.
  destruct (buildClauses_text_rel f0 f0' u u' h h' f h1 f' h1')
    as [Hw Hr]; try done.
  split; [done|]. by rewrite Ht, Ht', Hr.
Qed.

(** X13: the recursive definitions of a constructed filter are named after
    their position: the text of the [i]-th starts with "RecQry", the number
    [i] and " AS (".  No two definitions have the same text. *)
Theorem recursive_queries_named_by_position (user_ : option SignedInUser)
    (permissionLevel : Z) (queryType : string) (features : FeatureToggles)
    (h : heap) :
  ∃ f h1,
    NewAccessControlDashboardPermissionFilter user_ permissionLevel queryType
      features h = Some (f, h1)
    ∧ (∀ i c, recQueries f !! i = Some c →
              ∃ rest, text c = "RecQry" +:+ Sprintf_d i +:+ " AS (" +:+ rest)
    ∧ NoDup (text <$> recQueries f).
Proof.
  destruct (New_build permissionLevel queryType) as (fa & da & _ & ->).
  set (f0 := Filter user_ da fa features (Clause "" nil_slice) []).
  destruct (buildClauses_total f0 h [] (owns_nil h)) as (f & h1 & E & Hpost).
  exists f, h1. split; [done|].
  assert (recQueries f = [] →
          (∀ i c, recQueries f !! i = Some c →
                  ∃ rest, text c = "RecQry" +:+ Sprintf_d i +:+ " AS (" +:+ rest)
          ∧ NoDup (text <$> recQueries f)) as Hnone.
  { intros ->. split; [by intros i c ?|apply NoDup_nil_2]. }
  simpl in Hpost. destruct user_ as [u|]; [|destruct Hpost as [-> _]; by apply Hnone].
  destruct (map_index None (Permissions u) (OrgID u)) as [m|] eqn:Hm;
    [|destruct Hpost as [-> _]; by apply Hnone].
  destruct (buildClauses_shape f0 u h f h1 eq_refl) as
    (s1 & s2 & cs1 & cs2 & _ & Hrq & _ & _ & Hl1 & Hl2 & Hn1 & Hn2);
    [by rewrite Hm | done |].
  simpl in Hrq, Hn1, Hn2. rewrite Hrq.
  destruct cs1 as [|c1 [|? ?]]; [| |simpl in Hl1; lia];
    (destruct cs2 as [|c2 [|? ?]]; [| |simpl in Hl2; lia]); simpl in *.
  - split; [by intros i c ? | apply NoDup_nil_2].
  - inversion Hn2 as [|? ? Hc2 _]; subst. split.
    + intros [|i] c Hi; simpl in Hi; [by simplify_eq | by rewrite lookup_nil in Hi].
    + apply NoDup_singleton.
  - inversion Hn1 as [|? ? Hc1 _]; subst. split.
    + intros [|i] c Hi; simpl in Hi; [by simplify_eq | by rewrite lookup_nil in Hi].
    + apply NoDup_singleton.
  - inversion Hn1 as [|? ? Hc1 _]; inversion Hn2 as [|? ? Hc2 _]; subst. split.
    + intros [|[|i]] c Hi; simpl in Hi;
        [by simplify_eq | by simplify_eq | by rewrite lookup_nil in Hi].
    + destruct Hc1 as [r1 Hc1], Hc2 as [r2 Hc2].
      apply NoDup_cons. split; [|apply NoDup_singleton].
      intros Heq%list_elem_of_singleton. rewrite Hc1, Hc2 in Heq.
      vm_compute in Heq. discriminate.
Qed.

(** X14: the predicate of a constructed filter is a parenthesis around a
    text that is not empty, for every input. *)
Theorem predicate_is_parenthesised (user_ : option SignedInUser)
    (permissionLevel : Z) (queryType : string) (features : FeatureToggles)
    (h : heap) :
  ∃ f h1 s,
    NewAccessControlDashboardPermissionFilter user_ permissionLevel queryType
      features h = Some (f, h1)
    ∧ (Where f).1 = "(" +:+ s +:+ ")"
    ∧ 0 < String.length s.
Proof.
  destruct (New_build permissionLevel queryType) as (fa & da & Hne & ->).
  set (f0 := Filter user_ da fa features (Clause "" nil_slice) []).
  destruct (buildClauses_total f0 h [] (owns_nil h)) as (f & h1 & E & Hpost).
  exists f, h1.
  assert (f = set_where f0 (Clause "(1 = 0)" nil_slice) →
          ∃ s, buildClauses f0 h = Some (f, h1)
               ∧ (Where f).1 = "(" +:+ s +:+ ")" ∧ 0 < String.length s) as Hdeny.
  { intros ->. exists "1 = 0". split; [done|]. split; [reflexivity|simpl; lia]. }
  simpl in Hpost. destruct user_ as [u|]; [|destruct Hpost as [Hf _]; by apply Hdeny].
  destruct (map_index None (Permissions u) (OrgID u)) as [m|] eqn:Hm;
    [|destruct Hpost as [Hf _]; by apply Hdeny].
  destruct (buildClauses_shape f0 u h f h1 eq_refl) as
    (s1 & s2 & cs1 & cs2 & Ht & _ & Hs1 & Hs2 & _); [by rewrite Hm | done |].
  exists (s1 +:+ s2). split; [done|].
  split; [by rewrite string_app_assoc|].
  rewrite string_length_app. simpl in Hs1, Hs2.
  destruct Hne as [Hfa|Hda].
  - assert (0 < length fa) by (destruct fa; [done | simpl; lia]).
    specialize (Hs2 ltac:(done)). lia.
  - assert (0 < length da) by (destruct da; [done | simpl; lia]).
    specialize (Hs1 ltac:(done)). lia.
Qed.

End Texts.

(** ** The legacy filter *)

Section LegacyMore.
Context `{Imports}.

Lemma legacy_Where_owns d h F :
  OrgRole d ≠ RoleAdmin → owns h F →
  wp (DashboardPermissionFilter_Where d) h (λ r h',
    r.1 = legacy_sql (length (okRoles (OrgRole d))) (BooleanStr (Dialect_ d) false)
    ∧ ∃ ok, owns h'
        ((r.2, [VInt64 (OrgId d); VPermissionType (PermissionLevel d);
                VInt64 (UserId d); VInt64 (UserId d)] ++ okRoles (OrgRole d)
               ++ [VInt64 (OrgId d); VPermissionType (PermissionLevel d);
                   VInt64 (UserId d)] ++ okRoles (OrgRole d))
         :: (ok, okRoles (OrgRole d)) :: F)).
Proof.
  intros Hr HF. unfold DashboardPermissionFilter_Where.
  rewrite decide_False by done.
  apply wp_bind. eapply wp_literal; [exact HF|]. intros ok0 h0 Hown0 Hlen0.
  apply wp_bind.
  eapply (wp_mono _ _ (λ ok h', owns h' ((ok, okRoles (OrgRole d)) :: F)
                                ∧ len ok = length (okRoles (OrgRole d)))).
  { unfold okRoles. case_decide.
    - eapply wp_append; [exact Hown0|]. intros ok1 h1 Hown1 Hlen1.
      split; [done|]. rewrite Hlen1, Hlen0. done.
    - apply wp_ret. done. }
  intros ok h1 [Hown1 Hlen1]. cbn beta zeta.
  apply wp_bind. eapply wp_literal; [exact Hown1|]. intros p0 h2 Hown2 _.
  apply wp_bind. eapply wp_elems; [exact Hown2|owned|].
  apply wp_bind. eapply wp_append; [exact Hown2|]. intros p1 h3 Hown3 _.
  apply wp_bind. eapply wp_append; [exact Hown3|]. intros p2 h4 Hown4 _.
  apply wp_bind. eapply wp_elems; [exact Hown4|owned|].
  apply wp_bind. eapply wp_append; [exact Hown4|]. intros p3 h5 Hown5 _.
  apply wp_ret. cbn [fst snd]. split; [by rewrite Hlen1|].
  exists ok. by rewrite <- !app_assoc in Hown5.
Qed.

(** X10: for a role other than Admin the legacy [Where] binds, in this
    order, the organization, the level, the user twice and the qualifying
    roles, then the organization, the level, the user and the qualifying
    roles again; the qualifying roles are the role itself, followed by
    Viewer when the role is Editor.  The slices of the store it starts from
    keep their contents. *)
Theorem legacy_bound_parameters (d : DashboardPermissionFilter) (h : heap) :
  OrgRole d ≠ RoleAdmin →
  let roles := VRoleType (OrgRole d)
               :: (if decide (OrgRole d = RoleEditor) then [VRoleType RoleViewer]
                   else []) in
  ∃ t p h',
    DashboardPermissionFilter_Where d h = Some ((t, p), h')
    ∧ pts h' p ([VInt64 (OrgId d); VPermissionType (PermissionLevel d);
                 VInt64 (UserId d); VInt64 (UserId d)] ++ roles
                ++ [VInt64 (OrgId d); VPermissionType (PermissionLevel d);
                    VInt64 (UserId d)] ++ roles)
    ∧ (∀ s zs, pts h s zs → pts h' s zs).
Proof.
  intros Hr roles.
  destruct (legacy_Where_owns d h [] Hr (owns_nil h))
    as ([t p] & h' & E & _ & ok & Hown).
  exists t, p, h'. split; [done|].
  split; [by eapply owns_pts; [exact Hown|left]|].
  intros s zs Hs.
  destruct (legacy_Where_owns d h [(s, zs)] Hr (owns_one _ _ _ Hs))
    as ([t2 p2] & h2 & E2 & _ & ok2 & Hown2).
  rewrite E in E2. injection E2 as <- <- <-.
  eapply owns_pts; [exact Hown2|]. right; right; left.
Qed.

(** X11: the text of the legacy [Where] carries no bound value: for roles
    other than Admin it is the same for two filters whenever both or
    neither have the Editor role and their dialects spell false the same
    way, whatever the identifiers, the level and the role names. *)
Theorem legacy_text_carries_no_bound_value (d d' : DashboardPermissionFilter)
    (h h' : heap) :
  OrgRole d ≠ RoleAdmin → OrgRole d' ≠ RoleAdmin →
  (OrgRole d = RoleEditor ↔ OrgRole d' = RoleEditor) →
  BooleanStr (Dialect_ d) false = BooleanStr (Dialect_ d') false →
  ∃ t p h1 p' h1',
    DashboardPermissionFilter_Where d h = Some ((t, p), h1)
    ∧ DashboardPermissionFilter_Where d' h' = Some ((t, p'), h1').
Proof.
  intros Hr Hr' He Hf.
  destruct (legacy_Where_owns d h [] Hr (owns_nil h))
    as ([t p] & h1 & E & Ht & _).
  destruct (legacy_Where_owns d' h' [] Hr' (owns_nil h'))
    as ([t' p'] & h1' & E' & Ht' & _).
  simpl in Ht, Ht'. exists t, p, h1, p', h1'. split; [done|].
  rewrite E'. do 3 f_equal. rewrite Ht, Ht', Hf. f_equal.
  unfold okRoles. destruct (decide (OrgRole d = RoleEditor)) as [e|n].
  - by rewrite decide_True by tauto.
  - by rewrite decide_False by tauto.
Qed.

(** X15: for a user all of whose required actions are covered by
    wildcards, [buildClauses] sets the predicate to the type tags of the
    non-empty action sets, joined by " OR ", binds no parameter, adds no
    recursive definition and leaves the store as it is, whatever the flag. *)
Theorem fully_covered_predicate (f : accessControlDashboardPermissionFilter)
    (u : SignedInUser) (h : heap) :
  user f = Some u →
  map_index None (Permissions u) (OrgID u) ≠ None →
  Forall (covered (map_index None (Permissions u) (OrgID u))
            [WildcardsFromPrefix ScopeDashboardsPrefix;
             WildcardsFromPrefix ScopeFoldersPrefix]) (dashboardActions f) →
  Forall (covered (map_index None (Permissions u) (OrgID u))
            [WildcardsFromPrefix ScopeFoldersPrefix]) (folderActions f) →
  buildClauses f h
  = Some (set_where f
            (Clause ("("
                     +:+ (if decide (0 < length (dashboardActions f))
                          then "NOT dashboard.is_folder" else "")
                     +:+ (if decide (0 < length (folderActions f))
                          then (if decide (0 < length (dashboardActions f))
                                then " OR " else "") +:+ "dashboard.is_folder"
                          else "")
                     +:+ ")") nil_slice), h).
Proof.
  intros Hu Hperm Hd Hf. unfold buildClauses, bind. rewrite nothingGranted_eq, Hu.
  destruct (map_index None (Permissions u) (OrgID u)) eqn:Hm; [|done]. simpl.
  rewrite <- Hu.
  destruct (UserRolesFilter (OrgID u) (UserID u) (Teams u) (GetOrgRoles (user f)))
    as [filter ps].
  unfold dashboardBranch. rewrite ?Hm, (actionsToCheck_covered _ _ _ Hd). simpl.
  destruct (decide (0 < length (dashboardActions f))); simpl; unfold ret;
    unfold folderBranch; simpl; rewrite ?Hm, (actionsToCheck_covered _ _ _ Hf);
    simpl; repeat case_decide; try lia; simpl; unfold ret;
    by rewrite ?string_app_assoc.
Qed.

End LegacyMore.

(** ** The further properties at the concrete configuration *)

Lemma actionsToCheck_all_when_nothing_covers_witness :
  ([WildcardsFromPrefix ScopeFoldersPrefix] = []
   ∨ Forall (λ a, map_index [] (None : option (gmap string (list string))) a = [])
       ["folders:read"; "dashboards:create"])
  ∧ actionsToCheck ["folders:read"; "dashboards:create"] None
      [WildcardsFromPrefix ScopeFoldersPrefix]
    = [VString "folders:read"; VString "dashboards:create"].
Proof.
  assert (Forall (λ a, map_index [] (None : option (gmap string (list string))) a = [])
            ["folders:read"; "dashboards:create"]) as Hall
    by (repeat constructor).
  split; [by right|].
  apply (actionsToCheck_all_when_nothing_covers ["folders:read"; "dashboards:create"]
           None [WildcardsFromPrefix ScopeFoldersPrefix]).
  by right.
Defined.

Lemma actionsToCheck_antitone_witness :
  let dw := WildcardsFromPrefix ScopeDashboardsPrefix in
  let fw := WildcardsFromPrefix ScopeFoldersPrefix in
  (∀ w, w ∈ [dw] → w ∈ [dw; fw])
  ∧ actionsToCheck ["dashboards:read"; "folders:read"]
      (map_index None (Permissions sample_user) (OrgID sample_user)) [dw; fw]
    `sublist_of`
    actionsToCheck ["dashboards:read"; "folders:read"]
      (map_index None (Permissions sample_user) (OrgID sample_user)) [dw].
Proof.
  intros dw fw.
  assert (∀ w, w ∈ [dw] → w ∈ [dw; fw]) as Hsub.
  { intros w Hw%list_elem_of_singleton. subst. left. }
  split; [exact Hsub|].
  apply (actionsToCheck_antitone ["dashboards:read"; "folders:read"] _ [dw] [dw; fw] Hsub).
Defined.

Lemma recognised_query_type_actions_witness :
  TypeDashboard ≠ TypeFolder ∧ TypeAlertFolder ≠ TypeFolder
  ∧ TypeAlertFolder ≠ TypeDashboard
  ∧ ∃ f h', NewAccessControlDashboardPermissionFilter (Some sample_user) 2
              TypeAlertFolder nested_off [] = Some (f, h')
            ∧ folderActions f = ["folders:read"; "alert.rules:read"; "alert.rules:create"]
            ∧ dashboardActions f = [].
Proof.
  assert (TypeDashboard ≠ TypeFolder ∧ TypeAlertFolder ≠ TypeFolder
          ∧ TypeAlertFolder ≠ TypeDashboard) as (H1 & H2 & H3)
    by (repeat split; discriminate).
  do 3 (split; [assumption|]).
  destruct (recognised_query_type_actions (Some sample_user) 2 nested_off []
              H1 H2 H3) as (_ & _ & Ha).
  exact Ha.
Defined.

Lemma bound_parameters_in_order_witness :
  map_index None (Permissions sample_user) (OrgID sample_user) ≠ None
  ∧ ∃ f h1 wt wp_ h2,
      NewAccessControlDashboardPermissionFilter (Some sample_user) 2 "reports"
        nested_on [] = Some (f, h1)
      ∧ With f h1 = Some ((wt, wp_), h2)
      ∧ pts h2 wp_ (preambleParams f sample_user)
      ∧ pts h2 (Where f).2 (predicateParams f sample_user).
Proof.
  assert (map_index None (Permissions sample_user) (OrgID sample_user) ≠ None) as Hm
    by (vm_compute; discriminate).
  split; [exact Hm|].
  apply (bound_parameters_in_order sample_user 2 "reports" nested_on [] Hm).
Defined.

Lemma nested_flag_keeps_bound_parameters_witness :
  map_index None (Permissions sample_user) (OrgID sample_user) ≠ None
  ∧ IsEnabled nested_on FlagNestedFolders = true
  ∧ IsEnabled nested_off FlagNestedFolders = false
  ∧ ∃ f1 h1 wt1 wp1 h2 f2 h1' wt2 wp2 h2' P1 W1 W2,
      NewAccessControlDashboardPermissionFilter (Some sample_user) 2 "reports"
        nested_on [] = Some (f1, h1)
      ∧ With f1 h1 = Some ((wt1, wp1), h2)
      ∧ NewAccessControlDashboardPermissionFilter (Some sample_user) 2 "reports"
          nested_off [] = Some (f2, h1')
      ∧ With f2 h1' = Some ((wt2, wp2), h2')
      ∧ pts h2 wp1 P1 ∧ pts h2 (Where f1).2 W1
      ∧ pts h2' wp2 [] ∧ pts h2' (Where f2).2 W2
      ∧ P1 ++ W1 ≡ₚ W2
      ∧ (dashboardActions f1 = [] ∨ folderActions f1 = [] → P1 ++ W1 = W2).
Proof.
  assert (map_index None (Permissions sample_user) (OrgID sample_user) ≠ None) as Hm
    by (vm_compute; discriminate).
  split; [exact Hm|]. split; [reflexivity|]. split; [reflexivity|].
  apply (nested_flag_keeps_bound_parameters sample_user 2 "reports" nested_on
           nested_off [] [] Hm eq_refl eq_refl).
Defined.

Lemma With_twice_witness :
  let f := sample_filter [] [] nested_on
             [Clause "a" (Slice (Some 0) 1 1); Clause "b" (Slice (Some 1) 2 2)] in
  let h := [[VInt 1]; [VInt 2; VInt 3]] in
  Forall2 (λ r x, pts h (params r) x) (recQueries f) [[VInt 1]; [VInt 2; VInt 3]]
  ∧ ∃ t p h' p' h'',
      With f h = Some ((t, p), h')
      ∧ With f h' = Some ((t, p'), h'')
      ∧ pts h'' p [VInt 1; VInt 2; VInt 3]
      ∧ pts h'' p' [VInt 1; VInt 2; VInt 3].
Proof.
  intros f h.
  assert (Forall2 (λ r x, pts h (params r) x) (recQueries f)
            [[VInt 1]; [VInt 2; VInt 3]]) as Hrs.
  { repeat constructor; eexists; (split; [reflexivity|]); simpl; auto. }
  split; [exact Hrs|]. apply (With_twice f h _ Hrs).
Defined.

Lemma legacy_bound_parameters_witness :
  OrgRole (sample_legacy "Editor") ≠ RoleAdmin
  ∧ ∃ t p h',
      DashboardPermissionFilter_Where (sample_legacy "Editor") [] = Some ((t, p), h')
      ∧ pts h' p [VInt64 1; VPermissionType 2; VInt64 7; VInt64 7;
                  VRoleType "Editor"; VRoleType "Viewer";
                  VInt64 1; VPermissionType 2; VInt64 7;
                  VRoleType "Editor"; VRoleType "Viewer"].
Proof.
  assert (OrgRole (sample_legacy "Editor") ≠ RoleAdmin) as Hr by discriminate.
  split; [exact Hr|].
  destruct (legacy_bound_parameters (sample_legacy "Editor") [] Hr)
    as (t & p & h' & E & Hp & _).
  exists t, p, h'. split; [exact E | exact Hp].
Defined.

Lemma legacy_text_carries_no_bound_value_witness :
  let d := sample_legacy "Viewer" in
  let d' := {| OrgRole := "None"; Dialect_ := sample_dialect; UserId := 99;
               OrgId := 5; PermissionLevel := 4 |} in
  OrgRole d ≠ RoleAdmin ∧ OrgRole d' ≠ RoleAdmin
  ∧ (OrgRole d = RoleEditor ↔ OrgRole d' = RoleEditor)
  ∧ BooleanStr (Dialect_ d) false = BooleanStr (Dialect_ d') false
  ∧ ∃ t p h1 p' h1',
      DashboardPermissionFilter_Where d [] = Some ((t, p), h1)
      ∧ DashboardPermissionFilter_Where d' [[VNil]] = Some ((t, p'), h1').
Proof.
  intros d d'.
  assert (OrgRole d ≠ RoleAdmin) as H1 by discriminate.
  assert (OrgRole d' ≠ RoleAdmin) as H2 by discriminate.
  assert (OrgRole d = RoleEditor ↔ OrgRole d' = RoleEditor) as H3
    by (split; discriminate).
  do 3 (split; [assumption|]). split; [reflexivity|].
  apply (legacy_text_carries_no_bound_value d d' [] [[VNil]] H1 H2 H3 eq_refl).
Defined.

Lemma texts_carry_no_bound_value_witness :
  map_index None (Permissions sample_user) (OrgID sample_user) ≠ None
  ∧ map_index None (Permissions other_user) (OrgID other_user) ≠ None
  ∧ (UserRolesFilter (OrgID sample_user) (UserID sample_user) (Teams sample_user)
       (GetOrgRoles (Some sample_user))).1
    = (UserRolesFilter (OrgID other_user) (UserID other_user) (Teams other_user)
         (GetOrgRoles (Some other_user))).1
  ∧ IsEnabled nested_on FlagNestedFolders = IsEnabled nested_on FlagNestedFolders
  ∧ ∃ f h1 wt wp_ h2 f' h1' wt' wp' h2',
      NewAccessControlDashboardPermissionFilter (Some sample_user) 2 "reports"
        nested_on [] = Some (f, h1)
      ∧ With f h1 = Some ((wt, wp_), h2)
      ∧ NewAccessControlDashboardPermissionFilter (Some other_user) 2 "reports"
          nested_on [[VNil]] = Some (f', h1')
      ∧ With f' h1' = Some ((wt', wp'), h2')
      ∧ (length (dashboardToCheck f sample_user)
         = length (dashboardToCheck f' other_user) →
         length (folderToCheck f sample_user)
         = length (folderToCheck f' other_user) →
         (Where f).1 = (Where f').1 ∧ wt = wt').
Proof.
  assert (map_index None (Permissions sample_user) (OrgID sample_user) ≠ None) as Hm
    by (vm_compute; discriminate).
  assert (map_index None (Permissions other_user) (OrgID other_user) ≠ None) as Hm'
    by (vm_compute; discriminate).
  assert ((UserRolesFilter (OrgID sample_user) (UserID sample_user)
             (Teams sample_user) (GetOrgRoles (Some sample_user))).1
          = (UserRolesFilter (OrgID other_user) (UserID other_user)
               (Teams other_user) (GetOrgRoles (Some other_user))).1) as Hrf
    by reflexivity.
  split; [exact Hm|]. split; [exact Hm'|]. split; [exact Hrf|].
  split; [reflexivity|].
  apply (texts_carry_no_bound_value sample_user other_user 2 "reports" nested_on
           nested_on [] [[VNil]] Hm Hm' Hrf eq_refl).
Defined.

Lemma fully_covered_predicate_witness :
  let f := sample_filter [] ["folders:read"] nested_on [] in
  user f = Some sample_user
  ∧ map_index None (Permissions sample_user) (OrgID sample_user) ≠ None
  ∧ Forall (covered (map_index None (Permissions sample_user) (OrgID sample_user))
              [WildcardsFromPrefix ScopeDashboardsPrefix;
               WildcardsFromPrefix ScopeFoldersPrefix]) (dashboardActions f)
  ∧ Forall (covered (map_index None (Permissions sample_user) (OrgID sample_user))
              [WildcardsFromPrefix ScopeFoldersPrefix]) (folderActions f)
  ∧ buildClauses f []
    = Some (set_where f (Clause "(dashboard.is_folder)" nil_slice), []).
Proof.
  intros f.
  assert (map_index None (Permissions sample_user) (OrgID sample_user) ≠ None) as Hm
    by (vm_compute; discriminate).
  assert (Forall (covered (map_index None (Permissions sample_user) (OrgID sample_user))
                    [WildcardsFromPrefix ScopeFoldersPrefix]) (folderActions f)) as Hall.
  { constructor; [|constructor]. apply (bool_decide_unpack _). vm_compute. exact I. }
  split; [reflexivity|]. split; [exact Hm|]. split; [constructor|].
  split; [exact Hall|].
  apply (fully_covered_predicate f sample_user [] eq_refl Hm (Forall_nil_2 _) Hall).
Defined.
